(** * Policy-gradient agent (hw2/cs285): Q-values, advantages, update protocol

    A shallow embedding of [cs285/agents/pg_agent.py] and
    [cs285/networks/critics.py].

    - Numbers are kept abstract ([Number]): the estimators are proved correct
      for every arithmetic, with the few algebraic laws a statement needs
      spelled out as hypotheses.  Instances: [Z] (runs) and [R] (exact
      arithmetic, for the standardisation step).
    - Python exceptions are the [Raise] branch of [result].
    - torch and the policy network are collaborators ([Collaborators]).
    - [update] runs in a state-and-exception monad over the agent object and
      a log of the collaborator calls that mutate parameters. *)

From Stdlib Require Import PrimFloat.
From stdpp Require Import base list list_monad gmap strings.
From Stdlib Require Import ZArith Lia Reals Lra.


(** ** Python exceptions *)

Inductive exn : Type :=
  | AssertionError
  | IndexError
  | ValueError
  | TypeError
  | AttributeError.

Inductive result (A : Type) : Type :=
  | Ok (a : A)
  | Raise (e : exn).
Arguments Ok {A} a.
Arguments Raise {A} e.

Global Instance result_ret : MRet result := λ A, Ok.
Global Instance result_bind : MBind result := λ A B f m,
  match m with
  | Ok a => f a
  | Raise e => Raise e
  end.

(** ** Numbers

    The operations Python and NumPy apply to rewards, values and advantages.
    [pow] is [x ** n] for an [int] exponent [n >= 0].  Python raises
    [OverflowError] when a float power overflows; that needs a base of
    magnitude above 1, which the discount factor (in [0, 1]) never is, and
    is left out: [pow] is total. *)

Class Number (F : Type) : Type := {
  zero : F;
  one : F;
  add : F → F → F;
  sub : F → F → F;
  mul : F → F → F;
  pow : F → nat → F;
}.

(** What the standardisation step needs on top: true division, the literal
    [1e-8], and NumPy's reductions [np.mean] and [np.std]. *)
Class Numpy (F : Type) : Type := {
  div : F → F → F;
  small_constant : F;
  np_mean : list F → F;
  np_std : list F → F;
}.

Declare Scope num_scope.
Delimit Scope num_scope with num.
Notation "0" := zero : num_scope.
Notation "1" := one : num_scope.
Infix "+" := add : num_scope.
Infix "-" := sub : num_scope.
Infix "*" := mul : num_scope.
Infix "/" := div : num_scope.
Infix "^" := pow : num_scope.

(** ** Sequences and arrays *)

(** [l[i]] for [i >= 0]: out of range raises. *)
Definition getitem {A} (l : list A) (i : nat) : result A :=
  match l !! i with
  | Some x => Ok x
  | None => Raise IndexError
  end.

(** [l[i] = x] for [i >= 0]: out of range raises. *)
Definition setitem {A} (l : list A) (i : nat) (x : A) : result (list A) :=
  if decide (i < length l) then Ok (<[i:=x]> l) else Raise IndexError.

(** [range(lo, hi)] and [range(n)]. *)
Definition range2 (lo hi : nat) : list nat := seq lo (hi - lo).
Definition range (n : nat) : list nat := range2 0 n.

(** [for x in xs: st = body(st, x)], stopping at the first exception. *)
Fixpoint for_each {S X} (body : S → X → result S) (xs : list X) (st : S)
    : result S :=
  match xs with
  | [] => Ok st
  | x :: xs' => st' ← body st x; for_each body xs' st'
  end.

(** The builtin [sum]: starts from [0] and adds from the left. *)
Definition py_sum {F : Type} {num : Number F} (xs : list F) : F :=
  fold_left add xs 0%num.

(** [np.concatenate]: refuses an empty sequence of arrays. *)
Definition np_concatenate {A} (arrays : list (list A)) : result (list A) :=
  match arrays with
  | [] => Raise ValueError
  | _ => Ok (concat arrays)
  end.

(** A tensor / ndarray: its shape and its entries in row-major order. *)
Record tensor (F : Type) : Type := Tensor {
  shape : list nat;
  data : list F;
}.
Arguments Tensor {F} shape data.
Arguments shape {F} t.
Arguments data {F} t.

(** [t.squeeze()]: drops every axis of size one. *)
Definition squeeze {F} (t : tensor F) : tensor F :=
  Tensor (filter (λ d, d ≠ 1) (shape t)) (data t).

(** A one-dimensional NumPy array seen as a tensor. *)
Definition as_array {F} (l : list F) : tensor F := Tensor [length l] l.

(** ** Collaborators: the policy network and torch *)

Class Collaborators (F : Type) : Type := {
  Obs : Type;
  Act : Type;
  (** the policy object: its parameters and optimizer state *)
  MLPPolicyPG : Type;
  ActorInfo : Type;
  (** [MLPPolicyPG(ac_dim, ob_dim, discrete, n_layers, layer_size, lr)] *)
  MLPPolicyPG_init : Z → Z → bool → Z → Z → F → result MLPPolicyPG;
  (** [actor.update(obs, actions, advantages)] *)
  MLPPolicyPG_update :
    MLPPolicyPG → list Obs → list Act → list F → result (MLPPolicyPG * ActorInfo);
  (** the critic's network parameters together with its Adam state *)
  CriticParams : Type;
  (** [ptu.build_mlp(ob_dim, 1, n_layers, layer_size)] then [optim.Adam] *)
  build_mlp : Z → Z → Z → option F → result CriticParams;
  (** the MLP applied to one observation (one output unit) *)
  network : CriticParams → Obs → F;
  (** [F.mse_loss(pred_values, q_values)] *)
  mse_loss : tensor F → list F → result F;
  (** [zero_grad(); loss.backward(); optimizer.step()] *)
  optimizer_step : CriticParams → list Obs → list F → CriticParams;
}.

(** ** [ValueCritic] (critics.py) *)

Section critic.
Context {F : Type} {num : Number F} {collab : Collaborators F}.

(** With [output_size=1] the network maps a batch of [B] observations to
    a [(B, 1)] tensor. *)
Definition network_batch (c : CriticParams) (obs : list Obs) : tensor F :=
  Tensor [length obs; 1] (map (network c) obs).

Definition ValueCritic_init
    (ob_dim n_layers layer_size : Z) (learning_rate : option F)
    : result CriticParams :=
  build_mlp ob_dim n_layers layer_size learning_rate.

Definition ValueCritic_forward (c : CriticParams) (obs : list Obs) : tensor F :=
  squeeze (network_batch c obs).

(** The diagnostics of one critic step: [{"Baseline Loss": loss}]. *)
Definition ValueCritic_update (c : CriticParams) (obs : list Obs) (q_values : list F)
    : result (CriticParams * gmap string F) :=
  let pred_values := ValueCritic_forward c obs in
  loss ← mse_loss pred_values q_values;
  let c' := optimizer_step c obs q_values in
  mret (c', {["Baseline Loss" := loss]}).
End critic.

(** ** [PGAgent] (pg_agent.py) *)

Record PGAgent (F : Type) {collab : Collaborators F} : Type := {
  actor : MLPPolicyPG;
  critic : option CriticParams;
  (** only read when [critic] is set *)
  baseline_gradient_steps : option Z;
  gamma : F;
  use_reward_to_go : bool;
  gae_lambda : option F;
  normalize_advantages : bool;
}.
Arguments actor {F _} p.
Arguments critic {F _} p.
Arguments baseline_gradient_steps {F _} p.
Arguments gamma {F _} p.
Arguments use_reward_to_go {F _} p.
Arguments gae_lambda {F _} p.
Arguments normalize_advantages {F _} p.

Section agent.
Context {F : Type} {num : Number F} {npy : Numpy F} {collab : Collaborators F}.

Definition PGAgent_init
    (ob_dim ac_dim : Z) (discrete : bool) (n_layers layer_size : Z)
    (gamma learning_rate : F) (use_baseline use_reward_to_go : bool)
    (baseline_learning_rate : option F) (baseline_gradient_steps : option Z)
    (gae_lambda : option F) (normalize_advantages : bool)
    : result (PGAgent F) :=
  actor ← MLPPolicyPG_init ac_dim ob_dim discrete n_layers layer_size learning_rate;
  '(critic, steps) ←
    (if use_baseline then
       c ← ValueCritic_init ob_dim n_layers layer_size baseline_learning_rate;
       mret (Some c, baseline_gradient_steps)
     else mret (None, None));
  mret {| actor := actor; critic := critic; baseline_gradient_steps := steps;
          gamma := gamma; use_reward_to_go := use_reward_to_go;
          gae_lambda := gae_lambda;
          normalize_advantages := normalize_advantages |}.

(** *** Q-values *)

Definition _discounted_return (self : PGAgent F) (rewards : list F)
    : result (list F) :=
  terms ← mapM (λ t, r ← getitem rewards t; mret (gamma self ^ t * r)%num)
               (range (length rewards));
  let total_return := py_sum terms in
  mret (replicate (length rewards) total_return).

Definition _discounted_reward_to_go (self : PGAgent F) (rewards : list F)
    : result (list F) :=
  let n := length rewards in
  let discounted_rewards_to_go := replicate n 0%num in
  for_each (λ discounted_rewards_to_go t,
      reward_to_go ←
        for_each (λ reward_to_go t_prime,
            r ← getitem rewards t_prime;
            mret (reward_to_go + gamma self ^ (t_prime - t) * r)%num)
          (range2 t n) 0%num;
      setitem discounted_rewards_to_go t reward_to_go)
    (range n) discounted_rewards_to_go.

Definition _calculate_q_vals (self : PGAgent F) (rewards : list (list F))
    : result (list (list F)) :=
  if negb (use_reward_to_go self) then
    mapM (_discounted_return self) rewards
  else
    mapM (_discounted_reward_to_go self) rewards.

(** *** Advantages *)

(** One iteration of the GAE loop at index [i]; the state is the array
    [advantages] and [next_advantage]. *)
Definition gae_body (self : PGAgent F) (gae_lambda : F)
    (rewards values terminals : list F)
    (st : list F * F) (i : nat) : result (list F * F) :=
  let '(advantages, next_advantage) := st in
  r ← getitem rewards i;
  v_next ← getitem values (i + 1);
  term ← getitem terminals i;
  v ← getitem values i;
  let delta_t := (r + gamma self * v_next * (1 - term) - v)%num in
  term' ← getitem terminals i;
  advantages ← setitem advantages i
    (delta_t + gamma self * gae_lambda * next_advantage * (1 - term'))%num;
  next_advantage ← getitem advantages i;
  mret (advantages, next_advantage).

Definition _estimate_advantage (self : PGAgent F)
    (obs : list Obs) (rewards q_values terminals : list F)
    : result (list F) :=
  advantages ←
    match critic self with
    | None => mret q_values
    | Some c =>
        let values := squeeze (ValueCritic_forward c obs) in
        if decide (shape values = shape (as_array q_values)) then
          match gae_lambda self with
          | None => mret (zip_with sub q_values (data values))
          | Some lam =>
              let batch_size := length obs in
              let values := data values ++ [0%num] in
              let advantages := replicate (batch_size + 1) 0%num in
              let next_advantage := 0%num in
              '(advantages, _) ←
                for_each (gae_body self lam rewards values terminals)
                  (rev (range batch_size)) (advantages, next_advantage);
              mret (take (length advantages - 1) advantages)
          end
        else Raise AssertionError
    end;
  if normalize_advantages self then
    let mean := np_mean advantages in
    let std := (np_std advantages + small_constant)%num in
    mret (map (λ a, ((a - mean) / std)%num) advantages)
  else mret advantages.

(** *** The training step *)

(** The collaborator calls that mutate parameters, as they are made. *)
Inductive call : Type :=
  | ActorUpdate (obs : list Obs) (actions : list Act) (advantages : list F)
  | CriticUpdate (obs : list Obs) (q_values : list F).

(** The agent object together with the log of calls made so far. *)
Record world : Type := World {
  agent : PGAgent F;
  calls : list call;
}.

Definition Eff (A : Type) : Type := world → result A * world.

Global Instance Eff_ret : MRet Eff := λ A a w, (Ok a, w).
Global Instance Eff_bind : MBind Eff := λ A B f m w,
  match m w with
  | (Ok a, w') => f a w'
  | (Raise e, w') => (Raise e, w')
  end.

Definition lift {A} (r : result A) : Eff A := λ w, (r, w).
Definition get_self : Eff (PGAgent F) := λ w, (Ok (agent w), w).

Definition set_actor (a : MLPPolicyPG) (self : PGAgent F) : PGAgent F :=
  {| actor := a; critic := critic self;
     baseline_gradient_steps := baseline_gradient_steps self;
     gamma := gamma self; use_reward_to_go := use_reward_to_go self;
     gae_lambda := gae_lambda self;
     normalize_advantages := normalize_advantages self |}.

Definition set_critic (c : CriticParams) (self : PGAgent F) : PGAgent F :=
  {| actor := actor self; critic := Some c;
     baseline_gradient_steps := baseline_gradient_steps self;
     gamma := gamma self; use_reward_to_go := use_reward_to_go self;
     gae_lambda := gae_lambda self;
     normalize_advantages := normalize_advantages self |}.

(** [self.actor.update(obs, actions, advantages)].  When the call raises,
    what it has done to the Policy's parameters is not known here (the
    Policy is a collaborator); the state keeps the old ones, and no
    statement is made about the Policy after a failed update. *)
Definition actor_update (obs : list Obs) (actions : list Act)
    (advantages : list F) : Eff ActorInfo := λ w,
  let w := World (agent w) (calls w ++ [ActorUpdate obs actions advantages]) in
  match MLPPolicyPG_update (actor (agent w)) obs actions advantages with
  | Ok (a, actor_info) => (Ok actor_info, World (set_actor a (agent w)) (calls w))
  | Raise e => (Raise e, w)
  end.

(** [self.critic.update(obs, q_values)] *)
Definition critic_update (obs : list Obs) (q_values : list F)
    : Eff (gmap string F) := λ w,
  match critic (agent w) with
  | None => (Raise AttributeError, w)
  | Some c =>
      let w := World (agent w) (calls w ++ [CriticUpdate obs q_values]) in
      match ValueCritic_update c obs q_values with
      | Ok (c', critic_info) =>
          (Ok critic_info, World (set_critic c' (agent w)) (calls w))
      | Raise e => (Raise e, w)
      end
  end.

(** [for x in xs] with a body that has effects. *)
Fixpoint for_eachE {S X} (body : S → X → Eff S) (xs : list X) (st : S)
    : Eff S :=
  match xs with
  | [] => mret st
  | x :: xs' => st' ← body st x; for_eachE body xs' st'
  end.

(** [range(n)] for an attribute that may be [None]; a negative [n] gives
    the empty range. *)
Definition range_of (n : option Z) : result (list nat) :=
  match n with
  | None => Raise TypeError
  | Some k => Ok (range (Z.to_nat k))
  end.

(** The values of the diagnostics mapping. *)
Inductive info_value : Type :=
  | ActorInfoV (actor_info : ActorInfo)
  | CriticInfoV (critic_info : gmap string F)
  | ScalarV (x : F).

Definition update
    (obs : list (list Obs)) (actions : list (list Act))
    (rewards terminals : list (list F)) : Eff (gmap string info_value) :=
  self ← get_self;
  q_values ← lift (_calculate_q_vals self rewards);
  obs ← lift (np_concatenate obs);
  actions ← lift (np_concatenate actions);
  rewards ← lift (np_concatenate rewards);
  terminals ← lift (np_concatenate terminals);
  q_values ← lift (np_concatenate q_values);
  advantages ← lift (_estimate_advantage self obs rewards q_values terminals);
  actor_info ← actor_update obs actions advantages;
  let info : gmap string info_value := {["actor_info" := ActorInfoV actor_info]} in
  match critic self with
  | Some _ =>
      let critic_info : gmap string F := ∅ in
      steps ← lift (range_of (baseline_gradient_steps self));
      '(info, critic_info) ←
        for_eachE (λ '(info, _) _,
            critic_info ← critic_update obs q_values;
            mret (<["critic_info" := CriticInfoV critic_info]> info, critic_info))
          steps (info, critic_info);
      mret ((ScalarV <$> critic_info) ∪ info)
  | None => mret info
  end.
End agent.

(** ** The formulas of the specification *)

Section formulas.
Context {F : Type} {num : Number F}.

(** [sum_from lo n f] is [f lo + f (lo+1) + ... + f (lo+n-1)], and
    [Sigma lo hi f] is the sum of [f t] for [lo <= t < hi]. *)
Fixpoint sum_from (lo n : nat) (f : nat → F) : F :=
  match n with
  | 0 => 0%num
  | S n' => (sum_from lo n' f + f (lo + n')%nat)%num
  end.

Definition Sigma (lo hi : nat) (f : nat → F) : F := sum_from lo (hi - lo) f.

(** [r_t], read as [0] past the end of the sequence. *)
Definition at_index (xs : list F) (t : nat) : F := default 0%num (xs !! t).

(** [R = Σ_{t=0}^{T-1} γ^t r_t] *)
Definition full_return (γ : F) (rewards : list F) : F :=
  Sigma 0 (length rewards) (λ t, (γ ^ t * at_index rewards t)%num).

(** [Q_t = Σ_{t'=t}^{T-1} γ^(t'-t) r_t'] *)
Definition tail_sum (γ : F) (rewards : list F) (t : nat) : F :=
  Sigma t (length rewards) (λ t', (γ ^ (t' - t) * at_index rewards t')%num).

Definition full_return_spec (γ : F) (rewards : list F) : list F :=
  replicate (length rewards) (full_return γ rewards).

Definition reward_to_go_spec (γ : F) (rewards : list F) : list F :=
  map (tail_sum γ rewards) (seq 0 (length rewards)).

(** The GAE recursion over a batch of [N] entries.  [V] carries the
    sentinel [V_N = 0]; [gae_A k i] is [A_i] for [i = N - k], so that
    [gae_A 0 N = A_N = 0]. *)
Section gae.
Variables (γ λ_ : F) (rewards values terminals : list F).

Definition gae_delta (i : nat) : F :=
  (at_index rewards i + γ * at_index values (S i) * (1 - at_index terminals i)
   - at_index values i)%num.

Fixpoint gae_A (k i : nat) : F :=
  match k with
  | 0 => 0%num
  | S k' => (gae_delta i + γ * λ_ * gae_A k' (S i) * (1 - at_index terminals i))%num
  end.

Definition gae_spec (N : nat) : list F :=
  map (λ i, gae_A (N - i) i) (seq 0 N).
End gae.

(** Standardisation: [(a - mean(a)) / (std(a) + 1e-8)]. *)
Definition standardize {npy : Numpy F} (a : list F) : list F :=
  map (λ x, ((x - np_mean a) / (np_std a + small_constant))%num) a.
End formulas.

(** ** Instances *)

(** Python [int]s. *)
Global Instance Z_number : Number Z := {|
  zero := 0%Z;
  one := 1%Z;
  add := Z.add;
  sub := Z.sub;
  mul := Z.mul;
  pow := λ x n, Z.pow x (Z.of_nat n);
|}.

(** A policy and a critic that only count their updates; observations and
    actions are numbers, the critic predicts [bias + observation]. *)
Definition counting (F : Type) {num : Number F} : Collaborators F := {|
  Obs := F;
  Act := nat;
  MLPPolicyPG := nat;
  ActorInfo := nat;
  MLPPolicyPG_init := λ _ _ _ _ _ _, Ok 0;
  MLPPolicyPG_update := λ n _ _ _, Ok (S n, n);
  CriticParams := nat;
  build_mlp := λ _ _ _ _, Ok 0;
  network := λ _ o, o;
  mse_loss := λ _ _, Ok 0%num;
  optimizer_step := λ n _ _, S n;
|}.

(** An agent over the integers with the counting collaborators. *)
Definition int_agent (γ : Z) (rtg : bool) (critic : option nat) (steps : option Z)
    (lam : option Z) : @PGAgent Z (counting Z) :=
  @Build_PGAgent Z (counting Z) 0 critic steps γ rtg lam false.

(** Exact real arithmetic, with NumPy's reductions as documented:
    [mean(a) = sum(a) / len(a)] and [std(a) = sqrt(mean(abs(a - mean(a))**2))]. *)
Global Instance R_number : Number R := {|
  zero := 0%R;
  one := 1%R;
  add := Rplus;
  sub := Rminus;
  mul := Rmult;
  pow := Rpow_def.pow;
|}.

Definition Rsum (a : list R) : R := foldr Rplus 0%R a.

Definition Rmean (a : list R) : R := (Rsum a / INR (length a))%R.

Definition Rstd (a : list R) : R :=
  sqrt (Rmean (map (λ x, (Rabs (x - Rmean a) ^ 2)%R) a)).

Global Instance R_numpy : Numpy R := {|
  div := Rdiv;
  small_constant := (1 / 10 ^ 8)%R;
  np_mean := Rmean;
  np_std := Rstd;
|}.

(** An agent over the reals with the counting collaborators. *)
Definition real_agent (γ : R) (rtg : bool) (critic : option nat) (steps : option Z)
    (lam : option R) (normalize : bool) : @PGAgent R (counting R) :=
  @Build_PGAgent R (counting R) 0 critic steps γ rtg lam normalize.

(** ** Auxiliary notions for the statements *)

Section notions.
Context {F : Type} {num : Number F} {npy : Numpy F} {collab : Collaborators F}.

(** What the estimator does after the raw advantages are known. *)
Definition postprocess (self : PGAgent F) (advantages : list F) : list F :=
  if normalize_advantages self then standardize advantages else advantages.

(** The critic's parameters after [n] gradient steps on the same batch. *)
Definition critic_after (c : CriticParams) (obs : list Obs) (q_values : list F)
    (n : nat) : CriticParams :=
  Nat.iter n (λ c, optimizer_step c obs q_values) c.
End notions.

(** The state before a call: an agent and an empty log. *)
Definition fresh (self : @PGAgent R (counting R)) : @world R (counting R) :=
  World self [].

(** [update] of the agent over the reals. *)
Definition real_update := @update R R_number R_numpy (counting R).

(** The same agent with another standardisation flag. *)
Definition set_normalize {F : Type} {collab : Collaborators F} (flag : bool)
    (self : PGAgent F) : PGAgent F :=
  {| actor := actor self; critic := critic self;
     baseline_gradient_steps := baseline_gradient_steps self;
     gamma := gamma self; use_reward_to_go := use_reward_to_go self;
     gae_lambda := gae_lambda self;
     normalize_advantages := flag |}.

(** [_estimate_advantage] of the agent over the reals. *)
Definition real_estimate := @_estimate_advantage R R_number R_numpy (counting R).

(** Collaborators as [counting], except that the loss cannot be computed. *)
Definition refusing (F : Type) {num : Number F} : Collaborators F := {|
  Obs := F;
  Act := nat;
  MLPPolicyPG := nat;
  ActorInfo := nat;
  MLPPolicyPG_init := λ _ _ _ _ _ _, Ok 0;
  MLPPolicyPG_update := λ n _ _ _, Ok (S n, n);
  CriticParams := nat;
  build_mlp := λ _ _ _ _, Ok 0;
  network := λ _ o, o;
  mse_loss := λ _ _, Raise ValueError;
  optimizer_step := λ n _ _, S n;
|}.

(** Collaborators as [counting], except that the Policy's update raises. *)
Definition stubborn (F : Type) {num : Number F} : Collaborators F := {|
  Obs := F;
  Act := nat;
  MLPPolicyPG := nat;
  ActorInfo := nat;
  MLPPolicyPG_init := λ _ _ _ _ _ _, Ok 0;
  MLPPolicyPG_update := λ _ _ _ _, Raise ValueError;
  CriticParams := nat;
  build_mlp := λ _ _ _ _, Ok 0;
  network := λ _ o, o;
  mse_loss := λ _ _, Ok 0%num;
  optimizer_step := λ n _ _, S n;
|}.

Section invariants.
Context {F : Type} {collab : Collaborators F}.

(** Two states of the agent with the same configuration: only the
    parameters of the Policy and of the critic may differ. *)
Definition same_configuration (a a' : PGAgent F) : Prop :=
  gamma a' = gamma a ∧
  use_reward_to_go a' = use_reward_to_go a ∧
  gae_lambda a' = gae_lambda a ∧
  normalize_advantages a' = normalize_advantages a ∧
  baseline_gradient_steps a' = baseline_gradient_steps a ∧
  (is_Some (critic a') ↔ is_Some (critic a)).

(** [w'] is reachable from [w]: same configuration, longer log. *)
Definition evolves (w w' : world) : Prop :=
  same_configuration (agent w) (agent w') ∧ calls w `prefix_of` calls w'.
End invariants.

(** A computation that, whatever its outcome, keeps the configuration and
    only extends the log. *)
Definition preserves {F : Type} {collab : Collaborators F} {A : Type}
    (m : Eff A) : Prop :=
  ∀ w r w', m w = (r, w') → evolves w w'.

(** IEEE binary64, the arithmetic NumPy runs the advantage loop on:
    [+], [-] and [*] are the float operations, with their infinities and
    NaN.  [pow] is written as repeated multiplication and the reductions as
    left-to-right sums; the statements about this instance run the
    advantage estimator with standardisation off, which uses neither. *)
Definition float_number : Number float := {|
  zero := 0%float;
  one := 1%float;
  add := PrimFloat.add;
  sub := PrimFloat.sub;
  mul := PrimFloat.mul;
  pow := λ x n, Nat.iter n (PrimFloat.mul x) 1%float;
|}.

Definition float_sum (a : list float) : float := fold_left PrimFloat.add a 0%float.

Definition float_len (a : list float) : float :=
  fold_left (λ n _, PrimFloat.add n 1%float) a 0%float.

Definition float_mean (a : list float) : float :=
  PrimFloat.div (float_sum a) (float_len a).

Definition float_std (a : list float) : float :=
  PrimFloat.sqrt
    (float_mean
       (map (λ x, let d := PrimFloat.abs (PrimFloat.sub x (float_mean a)) in
                  PrimFloat.mul d d) a)).

Definition float_numpy : Numpy float := {|
  div := PrimFloat.div;
  small_constant := 0x1.5798ee2308c3ap-27%float;
  np_mean := float_mean;
  np_std := float_std;
|}.

(** An agent over binary64 with the counting collaborators, and its
    advantage estimator. *)
Definition float_collaborators : Collaborators float :=
  @counting float float_number.

Definition float_agent (γ : float) (critic : option nat) (lam : option float)
    : @PGAgent float float_collaborators :=
  @Build_PGAgent float float_collaborators 0 critic (Some 1%Z) γ true lam false.

Definition float_estimate :=
  @_estimate_advantage float float_number float_numpy float_collaborators.

(** * Properties *)

(** ** The error monad and loops *)

Section basics.
Context {A B S X : Type}.

Lemma getitem_Some (l : list A) i x : l !! i = Some x → getitem l i = Ok x.
Proof. unfold getitem. by intros ->. Qed.

Lemma getitem_None (l : list A) i : length l ≤ i → getitem l i = Raise IndexError.
Proof. intros Hi. unfold getitem. by rewrite lookup_ge_None_2. Qed.

Lemma setitem_lt (l : list A) i x : i < length l → setitem l i x = Ok (<[i:=x]> l).
Proof. intros Hi. unfold setitem. by rewrite decide_True. Qed.

Lemma mapM_Ok (f : A → result B) (g : A → B) (l : list A) :
  (∀ x, x ∈ l → f x = Ok (g x)) → mapM f l = Ok (map g l).
Proof.
  induction l as [|a l IH]; intros Hf; [done|].
  cbn. rewrite Hf by left. cbn.
  rewrite IH; [done|]. intros x Hx. apply Hf. by right.
Qed.

Lemma for_each_app (body : S → X → result S) xs ys st :
  for_each body (xs ++ ys) st = (st' ← for_each body xs st; for_each body ys st').
Proof.
  revert st. induction xs as [|x xs IH]; intros st; [done|].
  cbn. destruct (body st x); cbn; [apply IH|done].
Qed.
End basics.

(** ** Q-values *)

Section qvalues.
Context {F : Type} {num : Number F} {collab : Collaborators F}.
Implicit Types (self : PGAgent F) (rewards : list F) (γ : F).

Lemma at_index_Some rewards t x : rewards !! t = Some x → at_index rewards t = x.
Proof. unfold at_index. by intros ->. Qed.

Lemma getitem_at_index rewards t :
  t < length rewards → getitem rewards t = Ok (at_index rewards t).
Proof.
  intros Ht. destruct (lookup_lt_is_Some_2 rewards t Ht) as [x Hx].
  by rewrite (getitem_Some _ _ _ Hx), (at_index_Some _ _ _ Hx).
Qed.

Lemma sum_from_ext lo n (f g : nat → F) :
  (∀ t, lo ≤ t < lo + n → f t = g t) → sum_from lo n f = sum_from lo n g.
Proof.
  induction n as [|n IH]; intros Hfg; [done|].
  cbn. rewrite IH by (intros; apply Hfg; lia). by rewrite Hfg by lia.
Qed.

Lemma py_sum_seq (f : nat → F) lo n : py_sum (map f (seq lo n)) = sum_from lo n f.
Proof.
  unfold py_sum. induction n as [|n IH]; [done|].
  by rewrite seq_S, map_app, fold_left_app, IH.
Qed.

(** The inner loop of [_discounted_reward_to_go] for a fixed [t]. *)
Lemma accumulate_loop rewards (g : nat → F → F) lo k :
  lo + k ≤ length rewards →
  for_each (λ acc t', r ← getitem rewards t'; mret (acc + g t' r)%num) (seq lo k) 0%num
  = Ok (sum_from lo k (λ t', g t' (at_index rewards t'))).
Proof.
  induction k as [|k IH]; intros Hk; [done|].
  rewrite seq_S, for_each_app, IH by lia. cbn.
  by rewrite getitem_at_index by lia.
Qed.

(** The outer loop: entry [t] of the array receives the result of the
    body at [t]. *)
Lemma fill_loop (body : nat → result F) (h : nat → F) (z : F) n k :
  k ≤ n →
  (∀ t, t < n → body t = Ok (h t)) →
  for_each (λ arr t, v ← body t; setitem arr t v) (seq 0 k) (replicate n z)
  = Ok (map h (seq 0 k) ++ replicate (n - k) z).
Proof.
  intros Hk Hbody. induction k as [|k IH].
  { cbn. by rewrite Nat.sub_0_r. }
  rewrite seq_S, for_each_app, IH by lia. cbn.
  rewrite Hbody by lia. cbn.
  rewrite setitem_lt.
  2:{ rewrite length_app, length_map, length_seq, length_replicate. lia. }
  f_equal. rewrite map_app, <- app_assoc. cbn.
  replace (n - k) with (S (n - S k)) by lia. cbn.
  rewrite insert_app_r_alt by (rewrite length_map, length_seq; lia).
  by rewrite length_map, length_seq, Nat.sub_diag.
Qed.

Lemma _discounted_return_spec self rewards :
  _discounted_return self rewards = Ok (full_return_spec (gamma self) rewards).
Proof.
  unfold _discounted_return, full_return_spec, full_return, Sigma, range, range2.
  rewrite (mapM_Ok _ (λ t, (gamma self ^ t * at_index rewards t)%num)).
  - cbn. by rewrite py_sum_seq.
  - intros t [_ Ht]%elem_of_seq. by rewrite getitem_at_index by lia.
Qed.

Lemma _discounted_reward_to_go_spec self rewards :
  _discounted_reward_to_go self rewards = Ok (reward_to_go_spec (gamma self) rewards).
Proof.
  unfold _discounted_reward_to_go, reward_to_go_spec, range, range2.
  rewrite Nat.sub_0_r.
  rewrite (fill_loop _ (tail_sum (gamma self) rewards)); [|done|].
  - by rewrite Nat.sub_diag, app_nil_r.
  - intros t Ht. unfold tail_sum, Sigma.
    by rewrite (accumulate_loop rewards (λ t' r, (gamma self ^ (t' - t) * r)%num)) by lia.
Qed.

Lemma length_reward_to_go_spec γ rewards :
  length (reward_to_go_spec γ rewards) = length rewards.
Proof. unfold reward_to_go_spec. by rewrite length_map, length_seq. Qed.

Lemma lookup_reward_to_go_spec γ rewards t :
  t < length rewards →
  reward_to_go_spec γ rewards !! t = Some (tail_sum γ rewards t).
Proof.
  intros Ht. unfold reward_to_go_spec.
  by rewrite list_lookup_fmap, lookup_seq_lt.
Qed.

(** The reward-to-go at index 0 is the full-trajectory return. *)
Lemma tail_sum_0 γ rewards : tail_sum γ rewards 0 = full_return γ rewards.
Proof.
  unfold tail_sum, full_return, Sigma. apply sum_from_ext.
  intros t _. by rewrite Nat.sub_0_r.
Qed.

(** The reward-to-go at the last index is the last reward. *)
Lemma tail_sum_last γ rewards t :
  (∀ x : F, 0 + x = x)%num → (∀ x : F, 1 * x = x)%num → (∀ x : F, x ^ 0 = 1)%num →
  S t = length rewards →
  tail_sum γ rewards t = at_index rewards t.
Proof.
  intros Hadd Hmul Hpow Ht. unfold tail_sum, Sigma.
  replace (length rewards - t) with 1 by lia. cbn.
  by rewrite Nat.add_0_r, Nat.sub_diag, Hpow, Hmul, Hadd.
Qed.
End qvalues.

Section q_value_estimator.
Context {F : Type} {num : Number F} {collab : Collaborators F}.
Implicit Types (self : PGAgent F).

Lemma lookup_mapM_Ok {A B} (f : A → result B) (g : A → B) (l : list A) k a :
  (∀ x, f x = Ok (g x)) → l !! k = Some a →
  mapM f l = Ok (map g l) ∧ map g l !! k = Some (g a).
Proof.
  intros Hf Hk. split; [by apply mapM_Ok|].
  by rewrite list_lookup_fmap, Hk.
Qed.

(** C2: in reward-to-go mode the Q-values of a trajectory of length [T]
    have length [T]; the entry at [t] is the tail sum
    [Σ_{t'=t}^{T-1} γ^(t'-t) r_t']; the entry at [T-1] is [r_{T-1}] itself
    and the entry at [0] is the full-trajectory discounted return; the
    output for a trajectory is [_discounted_reward_to_go] of that
    trajectory's rewards alone. *)
Theorem reward_to_go_q_values self (rewards : list (list F)) :
  use_reward_to_go self = true →
  (∀ x : F, 0 + x = x)%num → (∀ x : F, 1 * x = x)%num → (∀ x : F, x ^ 0 = 1)%num →
  ∃ q_values,
    _calculate_q_vals self rewards = Ok q_values ∧
    length q_values = length rewards ∧
    ∀ k rs, rewards !! k = Some rs →
      ∃ q, q_values !! k = Some q ∧
           _discounted_reward_to_go self rs = Ok q ∧
           length q = length rs ∧
           (∀ t, t < length rs → q !! t = Some (tail_sum (gamma self) rs t)) ∧
           (∀ t, S t = length rs → q !! t = rs !! t) ∧
           (0 < length rs → q !! 0 = Some (full_return (gamma self) rs)).
Proof.
  intros Hmode Hadd Hmul Hpow.
  exists (map (reward_to_go_spec (gamma self)) rewards).
  unfold _calculate_q_vals. rewrite Hmode. cbn [negb].
  split; [apply mapM_Ok; intros; apply _discounted_reward_to_go_spec|].
  split; [by rewrite length_map|].
  intros k rs Hk. exists (reward_to_go_spec (gamma self) rs).
  split; [by rewrite list_lookup_fmap, Hk|].
  split; [apply _discounted_reward_to_go_spec|].
  split; [apply length_reward_to_go_spec|].
  split; [intros; by apply lookup_reward_to_go_spec|].
  split.
  - intros t Ht. rewrite lookup_reward_to_go_spec by lia.
    rewrite tail_sum_last by done.
    destruct (lookup_lt_is_Some_2 rs t) as [x Hx]; [lia|].
    by rewrite (at_index_Some _ _ _ Hx).
  - intros HT. by rewrite lookup_reward_to_go_spec, tail_sum_0.
Qed.

(** C3: in full-trajectory-return mode the Q-values of a trajectory of
    length [T] have length [T] and every entry is the same value
    [R = Σ_{t=0}^{T-1} γ^t r_t]; a trajectory of length 1 gives [Q_0 = r_0]. *)
Theorem full_return_q_values self (rewards : list (list F)) :
  use_reward_to_go self = false →
  (∀ x : F, 0 + x = x)%num → (∀ x : F, 1 * x = x)%num → (∀ x : F, x ^ 0 = 1)%num →
  ∃ q_values,
    _calculate_q_vals self rewards = Ok q_values ∧
    length q_values = length rewards ∧
    ∀ k rs, rewards !! k = Some rs →
      ∃ q, q_values !! k = Some q ∧
           _discounted_return self rs = Ok q ∧
           length q = length rs ∧
           (∀ t, t < length rs → q !! t = Some (full_return (gamma self) rs)) ∧
           (∀ r0, rs = [r0] → q = [r0]).
Proof.
  intros Hmode Hadd Hmul Hpow.
  exists (map (full_return_spec (gamma self)) rewards).
  unfold _calculate_q_vals. rewrite Hmode. cbn [negb].
  split; [apply mapM_Ok; intros; apply _discounted_return_spec|].
  split; [by rewrite length_map|].
  intros k rs Hk. exists (full_return_spec (gamma self) rs).
  split; [by rewrite list_lookup_fmap, Hk|].
  split; [apply _discounted_return_spec|].
  unfold full_return_spec.
  split; [apply length_replicate|].
  split; [intros; by apply lookup_replicate_2|].
  intros r0 ->. cbn. unfold full_return, Sigma. cbn.
  by rewrite Hpow, Hmul, Hadd.
Qed.
End q_value_estimator.

Lemma reward_to_go_q_values_witness :
  ∃ q_values,
    _calculate_q_vals (int_agent 2 true None None None) [[1; 1; 1]; [5]]%Z = Ok q_values ∧
    length q_values = 2 ∧
    ∀ k rs, [[1; 1; 1]; [5]]%Z !! k = Some rs →
      ∃ q, q_values !! k = Some q ∧
           _discounted_reward_to_go (int_agent 2 true None None None) rs = Ok q ∧
           length q = length rs ∧
           (∀ t, t < length rs → q !! t = Some (tail_sum 2%Z rs t)) ∧
           (∀ t, S t = length rs → q !! t = rs !! t) ∧
           (0 < length rs → q !! 0 = Some (full_return 2%Z rs)).
Proof.
  apply (reward_to_go_q_values (int_agent 2 true None None None) [[1; 1; 1]; [5]]%Z).
  - reflexivity.
  - intros x. apply Z.add_0_l.
  - intros x. apply Z.mul_1_l.
  - intros x. reflexivity.
Defined.

Lemma full_return_q_values_witness :
  ∃ q_values,
    _calculate_q_vals (int_agent 2 false None None None) [[1; 1; 1]; [5]]%Z = Ok q_values ∧
    length q_values = 2 ∧
    ∀ k rs, [[1; 1; 1]; [5]]%Z !! k = Some rs →
      ∃ q, q_values !! k = Some q ∧
           _discounted_return (int_agent 2 false None None None) rs = Ok q ∧
           length q = length rs ∧
           (∀ t, t < length rs → q !! t = Some (full_return 2%Z rs)) ∧
           (∀ r0, rs = [r0] → q = [r0]).
Proof.
  apply (full_return_q_values (int_agent 2 false None None None) [[1; 1; 1]; [5]]%Z).
  - reflexivity.
  - intros x. apply Z.add_0_l.
  - intros x. apply Z.mul_1_l.
  - intros x. reflexivity.
Defined.

(** The estimators run: [γ = 2], rewards [[1, 1, 1]] and [[5]]. *)
Example reward_to_go_runs :
  _calculate_q_vals (int_agent 2 true None None None) [[1; 1; 1]; [5]]%Z
  = Ok [[7; 3; 1]; [5]]%Z.
Proof. reflexivity. Qed.

Example full_return_runs :
  _calculate_q_vals (int_agent 2 false None None None) [[1; 1; 1]; [5]]%Z
  = Ok [[7; 7; 7]; [5]]%Z.
Proof. reflexivity. Qed.

(** Rewards [[1, 2, 3]] with [γ = 1] in full-trajectory mode give [[6, 6, 6]]. *)
Example full_return_example :
  _calculate_q_vals (int_agent 1 false None None None) [[1; 2; 3]]%Z
  = Ok [[6; 6; 6]]%Z.
Proof. reflexivity. Qed.

(** Rewards [[1, 1]] and [[2]] with [γ = 0.9] in reward-to-go mode give
    [[1.9, 1]] and [[2]]; over the reals. *)
Example reward_to_go_example :
  _calculate_q_vals (real_agent (9 / 10) true None None None false)
    [[1; 1]; [2]]%R
  = Ok [[19 / 10; 1]; [2]]%R.
Proof.
  unfold _calculate_q_vals. cbn [use_reward_to_go real_agent negb].
  rewrite (mapM_Ok _ (reward_to_go_spec (9 / 10)%R))
    by (intros; apply (_discounted_reward_to_go_spec (collab := counting R))).
  cbn. repeat f_equal; lra.
Qed.

(** ** Advantages *)

Section shapes.
Context {F : Type} {num : Number F} {collab : Collaborators F}.

Lemma squeeze_idemp (t : tensor F) : squeeze (squeeze t) = squeeze t.
Proof.
  unfold squeeze. cbn. f_equal.
  induction (shape t) as [|d ds IH]; [done|].
  rewrite filter_cons. case_decide as Hd; [|done].
  rewrite filter_cons, decide_True by done. by f_equal.
Qed.

(** The critic's prediction for a batch of [B] observations has shape
    [(B,)], except for [B = 1], where squeezing leaves a scalar. *)
Lemma shape_ValueCritic_forward (c : CriticParams) (obs : list Obs) :
  shape (ValueCritic_forward c obs) = if decide (length obs = 1) then [] else [length obs].
Proof.
  unfold ValueCritic_forward, squeeze, network_batch. cbn [shape].
  rewrite !filter_cons, filter_nil.
  rewrite (decide_False (P := 1 ≠ 1)) by naive_solver.
  repeat case_decide; naive_solver.
Qed.

Lemma data_ValueCritic_forward (c : CriticParams) (obs : list Obs) :
  data (squeeze (ValueCritic_forward c obs)) = map (network c) obs.
Proof. done. Qed.

(** The assertion [values.shape == q_values.shape] passes exactly when the
    batch has as many observations as Q-values and is not a batch of one. *)
Lemma shape_check (c : CriticParams) (obs : list Obs) (q_values : list F) :
  shape (squeeze (ValueCritic_forward c obs)) = shape (as_array q_values)
  ↔ length obs = length q_values ∧ length obs ≠ 1.
Proof.
  unfold ValueCritic_forward. rewrite squeeze_idemp.
  fold (ValueCritic_forward c obs). rewrite shape_ValueCritic_forward. cbn.
  destruct (decide (length obs = 1)) as [Hone|Hone].
  - split; [discriminate|]. by intros [_ ?].
  - split; [by intros [= Heq]|]. by intros [-> _].
Qed.
End shapes.

Section gae_loop.
Context {F : Type} {num : Number F} {collab : Collaborators F}.
Variables (self : PGAgent F) (lam : F) (rewards V terminals : list F).

Let B := length V.
Let A (i : nat) : F := gae_A (gamma self) lam rewards V terminals (B - i) i.

Hypothesis Hrewards : length rewards = B.
Hypothesis Hterminals : length terminals = B.

Lemma getitem_sentinel i :
  i ≤ B → getitem (V ++ [0%num]) i = Ok (at_index V i).
Proof.
  intros Hi. unfold at_index. destruct (decide (i < B)) as [Hlt|Hge].
  - rewrite (getitem_Some _ _ (at_index V i)); [done|].
    rewrite lookup_app_l by done.
    destruct (lookup_lt_is_Some_2 V i Hlt) as [x Hx].
    by rewrite (at_index_Some _ _ _ Hx).
  - assert (i = B) as -> by lia.
    rewrite (lookup_ge_None_2 V B) by done. apply getitem_Some.
    subst B. by rewrite list_lookup_middle.
Qed.

Lemma A_unfold i :
  i < B →
  A i = (gae_delta (gamma self) rewards V terminals i
         + gamma self * lam * A (S i) * (1 - at_index terminals i))%num.
Proof.
  intros Hi. unfold A. by replace (B - i) with (S (B - S i)) by lia.
Qed.

(** One iteration at index [n] stores [A n], given [next_advantage = A (n+1)]. *)
Lemma gae_body_step advantages n :
  n < B → length advantages = B + 1 →
  gae_body self lam rewards (V ++ [0%num]) terminals (advantages, A (S n)) n
  = Ok (<[n := A n]> advantages, A n).
Proof.
  intros Hn Hlen. unfold gae_body.
  rewrite (getitem_at_index rewards) by lia. cbn.
  rewrite Nat.add_1_r, !getitem_sentinel by lia. cbn.
  rewrite (getitem_at_index terminals) by lia. cbn.
  rewrite setitem_lt by lia. cbn.
  rewrite (A_unfold n Hn). unfold gae_delta.
  erewrite getitem_Some; [done|]. apply list_lookup_insert_eq. lia.
Qed.

(** The loop from index [n-1] down to [0], entered with the entries from
    [n] on already computed. *)
Lemma gae_loop_spec n advantages :
  n ≤ B → length advantages = B + 1 →
  (∀ j, n ≤ j < B → advantages !! j = Some (A j)) →
  ∃ advantages' next,
    for_each (gae_body self lam rewards (V ++ [0%num]) terminals)
      (rev (seq 0 n)) (advantages, A n) = Ok (advantages', next) ∧
    length advantages' = B + 1 ∧
    ∀ j, j < B → advantages' !! j = Some (A j).
Proof.
  revert advantages. induction n as [|n IH]; intros advantages Hn Hlen Hdone.
  { exists advantages, (A 0). repeat split; [done|]. intros j Hj. apply Hdone. lia. }
  rewrite seq_S, rev_unit. cbn [for_each].
  rewrite gae_body_step by lia. cbn.
  apply IH; [lia|by rewrite length_insert|].
  intros j Hj. destruct (decide (j = n)) as [->|Hne].
  - apply list_lookup_insert_eq. lia.
  - rewrite list_lookup_insert_ne by done. apply Hdone. lia.
Qed.

Lemma gae_run :
  ∃ advantages next,
    for_each (gae_body self lam rewards (V ++ [0%num]) terminals)
      (rev (range B)) (replicate (B + 1) 0%num, 0%num) = Ok (advantages, next) ∧
    take (length advantages - 1) advantages
    = gae_spec (gamma self) lam rewards V terminals B.
Proof.
  destruct (gae_loop_spec B (replicate (B + 1) 0%num)) as (adv & next & Hrun & Hlen & Hadv).
  - done.
  - apply length_replicate.
  - intros j Hj. lia.
  - exists adv, next. unfold range, range2. rewrite Nat.sub_0_r.
    unfold A in Hrun at 1. rewrite Nat.sub_diag in Hrun. cbn in Hrun.
    split; [done|]. rewrite Hlen. replace (B + 1 - 1) with B by lia.
    apply list_eq. intros j. unfold gae_spec.
    rewrite list_lookup_fmap. destruct (decide (j < B)) as [Hj|Hj].
    + rewrite lookup_take_lt, lookup_seq_lt by done. cbn. by apply Hadv.
    + rewrite lookup_take_ge, lookup_seq_ge by lia. done.
Qed.
End gae_loop.

Section advantage_estimator.
Context {F : Type} {num : Number F} {npy : Numpy F} {collab : Collaborators F}.
Implicit Types (self : PGAgent F) (c : CriticParams) (obs : list Obs).
Implicit Types (rewards q_values terminals : list F).

Lemma _estimate_advantage_no_baseline self obs rewards q_values terminals :
  critic self = None →
  _estimate_advantage self obs rewards q_values terminals
  = Ok (postprocess self q_values).
Proof.
  intros Hc. unfold _estimate_advantage, postprocess. rewrite Hc. cbn.
  by destruct (normalize_advantages self).
Qed.

Lemma _estimate_advantage_mismatch self c obs rewards q_values terminals :
  critic self = Some c →
  shape (squeeze (ValueCritic_forward c obs)) ≠ shape (as_array q_values) →
  _estimate_advantage self obs rewards q_values terminals = Raise AssertionError.
Proof.
  intros Hc Hshape. unfold _estimate_advantage. rewrite Hc.
  by rewrite decide_False.
Qed.

Lemma _estimate_advantage_baseline self c obs rewards q_values terminals :
  critic self = Some c → gae_lambda self = None →
  shape (squeeze (ValueCritic_forward c obs)) = shape (as_array q_values) →
  _estimate_advantage self obs rewards q_values terminals
  = Ok (postprocess self (zip_with sub q_values (map (network c) obs))).
Proof.
  intros Hc Hlam Hshape. unfold _estimate_advantage, postprocess.
  rewrite Hc, decide_True, Hlam by done. cbn.
  by destruct (normalize_advantages self).
Qed.

Lemma _estimate_advantage_gae self c lam obs rewards q_values terminals :
  critic self = Some c → gae_lambda self = Some lam →
  length rewards = length obs → length terminals = length obs →
  shape (squeeze (ValueCritic_forward c obs)) = shape (as_array q_values) →
  _estimate_advantage self obs rewards q_values terminals
  = Ok (postprocess self
          (gae_spec (gamma self) lam rewards (map (network c) obs) terminals
             (length obs))).
Proof.
  intros Hc Hlam Hr Ht Hshape. unfold _estimate_advantage, postprocess.
  rewrite Hc, decide_True, Hlam by done.
  rewrite data_ValueCritic_forward.
  destruct (gae_run self lam rewards (map (network c) obs) terminals)
    as (adv & next & Hrun & Hadv); [by rewrite length_map..|].
  rewrite length_map in Hrun, Hadv. rewrite Hrun. cbn. rewrite Hadv.
  by destruct (normalize_advantages self).
Qed.

(** X23: in GAE mode, for a batch whose arrays share their length and whose
    baseline values [V] pass the shape assertion (as many Q-values as
    observations, and not exactly one observation), the raw advantages are
    the backward recursion [A_i = δ_i + γ·λ·A_{i+1}·(1 − terminal_i)] with
    [δ_i = r_i + γ·V_{i+1}·(1 − terminal_i) − V_i] and the sentinels
    [V_N = 0] and [A_N = 0]; standardisation, when enabled, is applied to
    these raw values. *)
Theorem gae_advantages self c lam obs rewards q_values terminals :
  critic self = Some c → gae_lambda self = Some lam →
  length rewards = length obs → length terminals = length obs →
  shape (squeeze (ValueCritic_forward c obs)) = shape (as_array q_values) →
  let N := length obs in
  let V := data (ValueCritic_forward c obs) in
  let A := gae_spec (gamma self) lam rewards V terminals N in
  _estimate_advantage self obs rewards q_values terminals
  = Ok (if normalize_advantages self then standardize A else A) ∧
  length A = N ∧
  (∀ i, i < N →
     A !! i = Some (gae_A (gamma self) lam rewards V terminals (N - i) i)) ∧
  gae_A (gamma self) lam rewards V terminals 0 N = 0%num ∧
  at_index V N = 0%num ∧
  (∀ i, i < N →
     gae_A (gamma self) lam rewards V terminals (N - i) i
     = (at_index rewards i + gamma self * at_index V (S i) * (1 - at_index terminals i)
        - at_index V i
        + gamma self * lam * gae_A (gamma self) lam rewards V terminals (N - S i) (S i)
          * (1 - at_index terminals i))%num).
Proof.
  intros Hc Hlam Hr Ht Hshape N V A. subst N V A.
  split; [by apply _estimate_advantage_gae|].
  unfold gae_spec. rewrite length_map, length_seq. split; [done|].
  split; [intros i Hi; by rewrite list_lookup_fmap, lookup_seq_lt|].
  split; [done|].
  split.
  - unfold at_index. rewrite lookup_ge_None_2; [done|].
    cbn. by rewrite length_map.
  - intros i Hi. by replace (length obs - i) with (S (length obs - S i)) by lia.
Qed.

(** C10: in GAE mode the advantages do not depend on the Q-value array:
    two Q-value arrays of the same shape give the same outcome, and on a
    batch that passes the shape assertion both calls return the same
    advantage array. *)
Theorem gae_ignores_q_values self c lam obs rewards q_values1 q_values2 terminals :
  critic self = Some c → gae_lambda self = Some lam →
  shape (as_array q_values1) = shape (as_array q_values2) →
  _estimate_advantage self obs rewards q_values1 terminals
  = _estimate_advantage self obs rewards q_values2 terminals ∧
  (length rewards = length obs → length terminals = length obs →
   shape (squeeze (ValueCritic_forward c obs)) = shape (as_array q_values1) →
   ∃ advantages,
     _estimate_advantage self obs rewards q_values1 terminals = Ok advantages ∧
     _estimate_advantage self obs rewards q_values2 terminals = Ok advantages).
Proof.
  intros Hc Hlam Hshape.
  assert (_estimate_advantage self obs rewards q_values1 terminals
          = _estimate_advantage self obs rewards q_values2 terminals) as Heq.
  { unfold _estimate_advantage. by rewrite Hc, Hlam, Hshape. }
  split; [done|]. intros Hr Ht Hq. rewrite <- Heq.
  eexists. split; by apply (_estimate_advantage_gae self c lam).
Qed.
End advantage_estimator.

Section trajectory_independence.
Context {F : Type} {num : Number F} {npy : Numpy F} {collab : Collaborators F}.
Implicit Types (self : PGAgent F) (c : CriticParams) (obs : list Obs).



End trajectory_independence.

(** ** The training step *)

Section effects.
Context {F : Type} {num : Number F} {npy : Numpy F} {collab : Collaborators F}.
Implicit Types (w : world) (self : PGAgent F).

Lemma Eff_bind_Ok {A B} (m : Eff A) (k : A → Eff B) w b w' :
  (m ≫= k) w = (Ok b, w') → ∃ a w1, m w = (Ok a, w1) ∧ k a w1 = (Ok b, w').
Proof.
  unfold mbind, Eff_bind. destruct (m w) as [[a|e] w1]; [eauto|discriminate].
Qed.

Lemma lift_Ok {A} (r : result A) w a w' :
  lift r w = (Ok a, w') → r = Ok a ∧ w' = w.
Proof. unfold lift. by intros [= -> ->]. Qed.

Lemma np_concatenate_Ok {A} (arrays : list (list A)) flat :
  np_concatenate arrays = Ok flat → arrays ≠ [] ∧ flat = concat arrays.
Proof. destruct arrays; [discriminate|]. by intros [= <-]. Qed.

Lemma np_concatenate_nonempty {A} (arrays : list (list A)) :
  arrays ≠ [] → np_concatenate arrays = Ok (concat arrays).
Proof. by destruct arrays. Qed.

(** The Q-value estimator never raises. *)
Lemma _calculate_q_vals_total self (rewards : list (list F)) :
  ∃ q_values, _calculate_q_vals self rewards = Ok q_values ∧
              length q_values = length rewards.
Proof.
  unfold _calculate_q_vals. destruct (use_reward_to_go self); cbn [negb].
  - exists (map (reward_to_go_spec (gamma self)) rewards).
    split; [|by rewrite length_map].
    apply mapM_Ok. intros. apply _discounted_reward_to_go_spec.
  - exists (map (full_return_spec (gamma self)) rewards).
    split; [|by rewrite length_map].
    apply mapM_Ok. intros. apply _discounted_return_spec.
Qed.

Lemma actor_update_Ok obs actions advantages w actor_info w' :
  actor_update obs actions advantages w = (Ok actor_info, w') →
  ∃ a, MLPPolicyPG_update (actor (agent w)) obs actions advantages = Ok (a, actor_info) ∧
       w' = World (set_actor a (agent w))
              (calls w ++ [ActorUpdate obs actions advantages]).
Proof.
  unfold actor_update. cbn.
  destruct (MLPPolicyPG_update _ _ _ _) as [[a i]|e]; [|discriminate].
  intros [= -> <-]. eauto.
Qed.

Lemma critic_update_Ok obs q_values w critic_info w' c :
  critic (agent w) = Some c →
  critic_update obs q_values w = (Ok critic_info, w') →
  ∃ loss, mse_loss (ValueCritic_forward c obs) q_values = Ok loss ∧
          critic_info = {["Baseline Loss" := loss]} ∧
          w' = World (set_critic (optimizer_step c obs q_values) (agent w))
                 (calls w ++ [CriticUpdate obs q_values]).
Proof.
  intros Hc. unfold critic_update, ValueCritic_update. rewrite Hc. cbn.
  destruct (mse_loss _ _) as [loss|e]; [|discriminate]. cbn.
  intros [= <- <-]. eauto.
Qed.

(** The baseline loop of [update]: every iteration trains the critic on
    the same [(obs, q_values)] and keeps the diagnostics of that step. *)
Lemma critic_loop_Ok obs q_values (steps : list nat) :
  ∀ (info : gmap string info_value) (critic_info : gmap string F) w c r w',
  critic (agent w) = Some c →
  for_eachE (λ '(info, _) _,
      critic_info ← critic_update obs q_values;
      mret (<["critic_info" := CriticInfoV critic_info]> info, critic_info))
    steps (info, critic_info) w = (Ok r, w') →
  calls w' = calls w ++ replicate (length steps) (CriticUpdate obs q_values) ∧
  actor (agent w') = actor (agent w) ∧
  critic (agent w') = Some (critic_after c obs q_values (length steps)) ∧
  match steps with
  | [] => r = (info, critic_info)
  | _ => ∃ loss,
      mse_loss (ValueCritic_forward
                  (critic_after c obs q_values (length steps - 1)) obs) q_values
      = Ok loss ∧
      r = (<["critic_info" := CriticInfoV {["Baseline Loss" := loss]}]> info,
           {["Baseline Loss" := loss]})
  end.
Proof.
  induction steps as [|x steps IH]; intros info critic_info w c r w' Hc Hrun.
  { cbn in Hrun. injection Hrun as <- <-. by rewrite app_nil_r. }
  cbn [for_eachE] in Hrun.
  apply Eff_bind_Ok in Hrun as ([info1 ci1] & w1 & Hstep & Hrest).
  apply Eff_bind_Ok in Hstep as (ci & w1' & Hupd & Hret).
  injection Hret as <- <- <-.
  destruct (critic_update_Ok _ _ _ _ _ _ Hc Hupd) as (loss & Hloss & -> & ->).
  apply (IH _ _ _ (optimizer_step c obs q_values)) in Hrest as (Hcalls & Hactor & Hcritic & Hr);
    [|done].
  cbn in Hcalls, Hactor, Hcritic.
  split; [by rewrite Hcalls, <- app_assoc|].
  split; [done|].
  split.
  { rewrite Hcritic. f_equal. unfold critic_after. cbn [length].
    by rewrite Nat.iter_succ_r. }
  destruct steps as [|y steps].
  - subst r. exists loss. by cbn.
  - destruct Hr as (loss' & Hloss' & ->). exists loss'. split.
    + replace (length (x :: y :: steps) - 1) with (S (length (y :: steps) - 1))
        by (cbn; lia).
      unfold critic_after in *. by rewrite Nat.iter_succ_r.
    + by rewrite insert_insert_eq.
Qed.
End effects.

Section update_protocol.
Context {F : Type} {num : Number F} {npy : Numpy F} {collab : Collaborators F}.
Implicit Types (w : world) (self : PGAgent F).

Lemma length_range n : length (range n) = n.
Proof. unfold range, range2. by rewrite length_seq, Nat.sub_0_r. Qed.

Lemma range_of_Ok (steps : option Z) xs :
  range_of steps = Ok xs →
  ∃ k, steps = Some k ∧ Z.of_nat (length xs) = Z.max 0 k.
Proof.
  destruct steps as [k|]; [|discriminate]. intros [= <-].
  exists k. split; [done|]. rewrite length_range. lia.
Qed.

(** C4: a call to [update] that returns has called the Policy's update
    exactly once, on the flattened observations, actions and advantages,
    and, with a baseline, then the baseline's update exactly
    [baseline_gradient_steps] times (no time for a count below one), every
    time on the same flattened observations and Q-values; the diagnostics
    hold the Policy's record under ["actor_info"] and, after at least one
    baseline step, the diagnostics of the last baseline step. *)
Theorem update_protocol obs actions rewards terminals w info w' :
  update obs actions rewards terminals w = (Ok info, w') →
  let self := agent w in
  ∃ q_values advantages actor' actor_info,
    let obs_f := concat obs in
    let actions_f := concat actions in
    let q_f := concat q_values in
    _calculate_q_vals self rewards = Ok q_values ∧
    _estimate_advantage self obs_f (concat rewards) q_f (concat terminals)
    = Ok advantages ∧
    MLPPolicyPG_update (actor self) obs_f actions_f advantages
    = Ok (actor', actor_info) ∧
    actor (agent w') = actor' ∧
    info !! "actor_info" = Some (ActorInfoV actor_info) ∧
    match critic self with
    | None =>
        calls w' = calls w ++ [ActorUpdate obs_f actions_f advantages] ∧
        critic (agent w') = None ∧
        info = {["actor_info" := ActorInfoV actor_info]}
    | Some c =>
        ∃ (k : Z) (n : nat),
          baseline_gradient_steps self = Some k ∧
          Z.of_nat n = Z.max 0 k ∧
          calls w' = calls w ++ ActorUpdate obs_f actions_f advantages
                             :: replicate n (CriticUpdate obs_f q_f) ∧
          critic (agent w') = Some (critic_after c obs_f q_f n) ∧
          (n = 0 → info = {["actor_info" := ActorInfoV actor_info]}) ∧
          (0 < n →
           ∃ loss,
             mse_loss (ValueCritic_forward (critic_after c obs_f q_f (n - 1)) obs_f) q_f
             = Ok loss ∧
             info !! "critic_info" = Some (CriticInfoV {["Baseline Loss" := loss]}) ∧
             info !! "Baseline Loss" = Some (ScalarV loss))
    end.
Proof.
  intros Hrun self. unfold update in Hrun.
  apply Eff_bind_Ok in Hrun as (self' & w0 & [= <- <-] & Hrun).
  apply Eff_bind_Ok in Hrun as (q_values & ? & [Hq ->]%lift_Ok & Hrun).
  apply Eff_bind_Ok in Hrun as (obs_f & ? & [[_ ->]%np_concatenate_Ok ->]%lift_Ok & Hrun).
  apply Eff_bind_Ok in Hrun as (act_f & ? & [[_ ->]%np_concatenate_Ok ->]%lift_Ok & Hrun).
  apply Eff_bind_Ok in Hrun as (rew_f & ? & [[_ ->]%np_concatenate_Ok ->]%lift_Ok & Hrun).
  apply Eff_bind_Ok in Hrun as (ter_f & ? & [[_ ->]%np_concatenate_Ok ->]%lift_Ok & Hrun).
  apply Eff_bind_Ok in Hrun as (q_f & ? & [[_ ->]%np_concatenate_Ok ->]%lift_Ok & Hrun).
  apply Eff_bind_Ok in Hrun as (advantages & ? & [Hadv ->]%lift_Ok & Hrun).
  apply Eff_bind_Ok in Hrun as (actor_info & w1 & Hactor & Hrun).
  apply actor_update_Ok in Hactor as (actor' & Hactor & ->).
  exists q_values, advantages, actor', actor_info. cbn zeta.
  do 3 (split; [done|]). fold self in Hrun |- *.
  destruct (critic self) as [c|] eqn:Hc.
  - apply Eff_bind_Ok in Hrun as (steps & ? & [Hsteps ->]%lift_Ok & Hrun).
    apply range_of_Ok in Hsteps as (k & Hk & Hn).
    apply Eff_bind_Ok in Hrun as ([info' critic_info] & w2 & Hloop & [= <- <-]).
    eapply critic_loop_Ok in Hloop as (Hcalls & Hact & Hcritic & Hr); [|exact Hc].
    cbn in Hcalls, Hact, Hcritic.
    assert (info' !! "actor_info" = Some (ActorInfoV actor_info)
            ∧ critic_info !! "actor_info" = None) as [Hai Hci].
    { destruct steps; [by injection Hr as -> ->|].
      destruct Hr as (loss & _ & [= -> ->]). split; by simplify_map_eq. }
    split; [done|].
    split; [by rewrite lookup_union_r, Hai by (by rewrite lookup_fmap, Hci)|].
    exists k, (length steps).
    split; [done|]. split; [done|].
    split; [by rewrite Hcalls, <- app_assoc|].
    split; [done|].
    split.
    + intros Hz. destruct steps; [|done]. injection Hr as -> ->.
      by rewrite fmap_empty, (left_id_L ∅ (∪)).
    + intros Hpos. destruct steps as [|x steps]; [cbn in Hpos; lia|].
      destruct Hr as (loss & Hloss & [= -> ->]). exists loss.
      split; [done|]. split.
      * rewrite lookup_union_r by (by rewrite lookup_fmap, lookup_singleton_ne).
        by rewrite lookup_insert_eq.
      * rewrite lookup_union_l' by (by rewrite lookup_fmap, lookup_singleton_eq).
        by rewrite lookup_fmap, lookup_singleton_eq.
  - injection Hrun as <- <-. cbn.
    split; [done|]. split; [by rewrite lookup_singleton_eq|done].
Qed.
End update_protocol.

Section update_failures.
Context {F : Type} {num : Number F} {npy : Numpy F} {collab : Collaborators F}.
Implicit Types (w : world) (self : PGAgent F).

(** Up to the advantage estimator [update] is pure: with non-empty lists
    it flattens the arrays, and continues or stops on the estimator's
    result.  No lengths are compared on the way. *)
Lemma update_prefix obs actions rewards terminals w q_values :
  obs ≠ [] → actions ≠ [] → rewards ≠ [] → terminals ≠ [] →
  _calculate_q_vals (agent w) rewards = Ok q_values →
  update obs actions rewards terminals w
  = match _estimate_advantage (agent w) (concat obs) (concat rewards)
            (concat q_values) (concat terminals) with
    | Raise e => (Raise e, w)
    | Ok advantages =>
        (actor_info ← actor_update (concat obs) (concat actions) advantages;
         let info : gmap string info_value :=
           {["actor_info" := ActorInfoV actor_info]} in
         match critic (agent w) with
         | Some _ =>
             steps ← lift (range_of (baseline_gradient_steps (agent w)));
             '(info, critic_info) ←
               for_eachE (λ '(info, _) _,
                   critic_info ← critic_update (concat obs) (concat q_values);
                   mret (<["critic_info" := CriticInfoV critic_info]> info, critic_info))
                 steps (info, ∅);
             mret ((ScalarV <$> critic_info) ∪ info)
         | None => mret info
         end) w
    end.
Proof.
  intros Hobs Hact Hrew Hter Hq.
  assert (q_values ≠ []) as Hqne.
  { destruct (_calculate_q_vals_total (agent w) rewards) as (q & Hq' & Hlen).
    rewrite Hq in Hq'. injection Hq' as <-.
    destruct q_values, rewards; done. }
  unfold update, mbind at 1 2 3 4 5 6 7 8, Eff_bind, get_self, lift.
  rewrite Hq, !np_concatenate_nonempty by done.
  by destruct (_estimate_advantage _ _ _ _ _).
Qed.

(** C5: with a baseline, when the shape of the baseline's predictions on
    the flattened observations differs from the shape of the Q-value
    array, [update] raises [AssertionError] and leaves the agent as it was:
    neither the Policy nor the baseline has been updated. *)
Theorem shape_mismatch_aborts obs actions rewards terminals w c q_values :
  critic (agent w) = Some c →
  obs ≠ [] → actions ≠ [] → rewards ≠ [] → terminals ≠ [] →
  _calculate_q_vals (agent w) rewards = Ok q_values →
  shape (squeeze (ValueCritic_forward c (concat obs)))
  ≠ shape (as_array (concat q_values)) →
  update obs actions rewards terminals w = (Raise AssertionError, w).
Proof.
  intros Hc Hobs Hact Hrew Hter Hq Hshape.
  rewrite (update_prefix _ _ _ _ _ q_values) by done.
  by rewrite (_estimate_advantage_mismatch _ c).
Qed.

(** C7, as the code has it: [update] compares no lengths.  Whenever the
    four lists are non-empty the arrays are flattened, and with no
    baseline the outcome is that of the Policy's update on the flattened
    observations, actions and post-processed Q-values; the terminal
    arrays are not read. *)
Theorem update_checks_no_lengths obs actions rewards terminals w q_values :
  critic (agent w) = None →
  obs ≠ [] → actions ≠ [] → rewards ≠ [] → terminals ≠ [] →
  _calculate_q_vals (agent w) rewards = Ok q_values →
  update obs actions rewards terminals w
  = (actor_info ← actor_update (concat obs) (concat actions)
                    (postprocess (agent w) (concat q_values));
     mret {["actor_info" := ActorInfoV actor_info]}) w.
Proof.
  intros Hc Hobs Hact Hrew Hter Hq.
  rewrite (update_prefix _ _ _ _ _ q_values) by done.
  rewrite _estimate_advantage_no_baseline by done. by rewrite Hc.
Qed.
End update_failures.

Section construction.
Context {F : Type} {num : Number F} {npy : Numpy F} {collab : Collaborators F}.
Implicit Types (w : world).

(** C6, as the code has it: construction checks no consistency.  It
    succeeds whenever the Policy and, with the baseline flag on, the
    critic can be built, and stores the GAE λ and the baseline step count
    as they are given. *)
Theorem construction_checks_nothing ob_dim ac_dim discrete n_layers layer_size
    (γ lr : F) (use_baseline rtg : bool) blr steps lam normalize a :
  MLPPolicyPG_init ac_dim ob_dim discrete n_layers layer_size lr = Ok a →
  (use_baseline = true →
   ∃ c, ValueCritic_init ob_dim n_layers layer_size blr = Ok c) →
  ∃ self,
    PGAgent_init ob_dim ac_dim discrete n_layers layer_size γ lr
      use_baseline rtg blr steps lam normalize = Ok self ∧
    actor self = a ∧ gamma self = γ ∧ use_reward_to_go self = rtg ∧
    gae_lambda self = lam ∧ normalize_advantages self = normalize ∧
    (use_baseline = false → critic self = None) ∧
    (use_baseline = true →
     ∃ c, ValueCritic_init ob_dim n_layers layer_size blr = Ok c ∧
          critic self = Some c ∧ baseline_gradient_steps self = steps).
Proof.
  intros Ha Hc. unfold PGAgent_init. rewrite Ha. cbn.
  destruct use_baseline.
  - destruct Hc as [c Hc]; [done|]. rewrite Hc. cbn.
    eexists. split; [done|]. cbn. repeat split; [done|]. intros _. by exists c.
  - cbn. eexists. split; [done|]. cbn. by repeat split.
Qed.

(** X19: a baseline without a step count is only noticed by [update],
    after the Policy has been updated: the call raises [TypeError], the
    Policy's parameters are the updated ones and the baseline has not been
    trained. *)
Lemma update_without_step_count obs actions rewards terminals w c q_values
    advantages a actor_info :
  critic (agent w) = Some c → baseline_gradient_steps (agent w) = None →
  obs ≠ [] → actions ≠ [] → rewards ≠ [] → terminals ≠ [] →
  _calculate_q_vals (agent w) rewards = Ok q_values →
  _estimate_advantage (agent w) (concat obs) (concat rewards) (concat q_values)
    (concat terminals) = Ok advantages →
  MLPPolicyPG_update (actor (agent w)) (concat obs) (concat actions) advantages
  = Ok (a, actor_info) →
  update obs actions rewards terminals w
  = (Raise TypeError,
     World (set_actor a (agent w))
       (calls w ++ [ActorUpdate (concat obs) (concat actions) advantages])).
Proof.
  intros Hc Hsteps Hobs Hact Hrew Hter Hq Hadv Hupd.
  rewrite (update_prefix _ _ _ _ _ q_values), Hadv, Hc, Hsteps by done.
  unfold mbind, Eff_bind, actor_update. cbn. by rewrite Hupd.
Qed.
End construction.

(** C6 fails on the code: an agent with GAE λ set and no baseline is
    constructed, and so are agents with a baseline and no step count, a
    step count of zero, or a negative one. *)
Lemma inconsistent_configuration_accepted :
  (∃ self,
     @PGAgent_init R (counting R) 4 2 true 2 64 (99 / 100)%R (1 / 200)%R
       false true None None (Some (95 / 100)%R) false = Ok self ∧
     critic self = None ∧ gae_lambda self = Some (95 / 100)%R) ∧
  (∃ self,
     @PGAgent_init R (counting R) 4 2 true 2 64 (99 / 100)%R (1 / 200)%R
       true true (Some (1 / 100)%R) None None false = Ok self ∧
     critic self = Some 0 ∧ baseline_gradient_steps self = None) ∧
  (∃ self,
     @PGAgent_init R (counting R) 4 2 true 2 64 (99 / 100)%R (1 / 200)%R
       true true (Some (1 / 100)%R) (Some 0%Z) None false = Ok self ∧
     critic self = Some 0 ∧ baseline_gradient_steps self = Some 0%Z) ∧
  (∃ self,
     @PGAgent_init R (counting R) 4 2 true 2 64 (99 / 100)%R (1 / 200)%R
       true true (Some (1 / 100)%R) (Some (-3)%Z) None false = Ok self ∧
     critic self = Some 0 ∧ baseline_gradient_steps self = Some (-3)%Z).
Proof. repeat split; eexists; (split; [reflexivity|]); by split. Qed.

(** C7 fails on the code: one trajectory with two observations, two
    actions, two rewards and three terminal markers, no baseline.  The call
    returns and the Policy has been updated. *)
Lemma mismatched_lengths_accepted :
  length [0; 0; 1]%R ≠ length [1; 1]%R ∧
  ∃ info w',
    real_update [[2; 3]%R] [[0; 0]] [[1; 1]%R] [[0; 0; 1]%R]
      (fresh (real_agent 1 true None None None false)) = (Ok info, w') ∧
    actor (agent w') = 1 ∧
    ∃ advantages, calls w' = [@ActorUpdate R (counting R) [2; 3]%R [0; 0] advantages].
Proof.
  split; [done|]. unfold real_update.
  set (w := fresh (real_agent 1 true None None None false)).
  destruct (_calculate_q_vals_total (agent w) [[1; 1]%R]) as (q_values & Hq & _).
  rewrite (update_prefix _ _ _ _ _ q_values) by done.
  rewrite _estimate_advantage_no_baseline by done.
  eexists _, _. split; [reflexivity|]. cbn. eauto.
Qed.

(** ** Standardisation *)

Section standardisation_step.
Context {F : Type} {num : Number F} {npy : Numpy F} {collab : Collaborators F}.

(** The raw advantages are those the estimator returns with the flag
    off; the flag only decides what is done to them afterwards. *)
Lemma _estimate_advantage_raw (self : PGAgent F) obs rewards q_values terminals :
  _estimate_advantage self obs rewards q_values terminals
  = (raw ← _estimate_advantage (set_normalize false self) obs rewards q_values terminals;
     mret (postprocess self raw)).
Proof.
  unfold _estimate_advantage, postprocess. cbn.
  destruct (critic self) as [c|]; cbn;
    [|by destruct (normalize_advantages self)].
  case_decide; [|done].
  destruct (gae_lambda self) as [lam|]; cbn;
    [|by destruct (normalize_advantages self)].
  change (gae_body (set_normalize false self)) with (gae_body self).
  destruct (for_each _ _ _) as [[adv next]|e]; cbn; [|done].
  by destruct (normalize_advantages self).
Qed.
End standardisation_step.

Section standardisation_reals.
Local Open Scope R_scope.
Implicit Types (a : list R) (x y m k : R).

Local Notation "'ε'" := (1 / 10 ^ 8).

Lemma small_constant_pos : 0 < ε.
Proof. lra. Qed.

Lemma standardize_reals a :
  standardize a = map (λ x, (x - Rmean a) / (Rstd a + ε)) a.
Proof. done. Qed.

Lemma Rsum_shift_scale a m k :
  Rsum (map (λ x, (x - m) * k) a) = (Rsum a - INR (length a) * m) * k.
Proof.
  induction a as [|x a IH]; [cbn; lra|].
  cbn [map Rsum foldr length]. fold (Rsum (map (λ x, (x - m) * k) a)).
  fold (Rsum a). rewrite IH, S_INR. lra.
Qed.

Lemma Rsum_scale (f : R → R) a k :
  Rsum (map (λ x, f x * k) a) = Rsum (map f a) * k.
Proof.
  induction a as [|x a IH]; [cbn; lra|].
  cbn [map Rsum foldr]. fold (Rsum (map (λ x, f x * k) a)).
  fold (Rsum (map f a)). rewrite IH. lra.
Qed.

Lemma Rsum_nonneg a : Forall (λ x, 0 <= x) a → 0 <= Rsum a.
Proof.
  induction 1 as [|x a Hx _ IH]; [cbn; lra|].
  cbn [Rsum foldr]. fold (Rsum a). lra.
Qed.

Lemma Rsum_zero a : Forall (λ x, 0 <= x) a → Rsum a = 0 → Forall (λ x, x = 0) a.
Proof.
  induction 1 as [|x a Hx Ha IH]; [done|].
  cbn [Rsum foldr]. fold (Rsum a). intros Hsum.
  pose proof (Rsum_nonneg a Ha). constructor; [lra|]. apply IH. lra.
Qed.

Lemma squares_nonneg a m : Forall (λ x, 0 <= x) (map (λ x, Rabs (x - m) ^ 2) a).
Proof. apply Forall_fmap, Forall_forall. intros x _. apply pow2_ge_0. Qed.

Lemma variance_nonneg a : 0 <= Rmean (map (λ x, Rabs (x - Rmean a) ^ 2) a).
Proof.
  unfold Rmean at 1. rewrite length_map.
  pose proof (Rsum_nonneg _ (squares_nonneg a (Rmean a))) as Hsum.
  destruct a as [|x a]; [cbn; lra|].
  apply Rmult_le_pos; [done|]. left. apply Rinv_0_lt_compat, lt_0_INR. cbn. lia.
Qed.

(** A batch whose entries are not all equal has a positive deviation. *)
Lemma Rstd_pos a x y : x ∈ a → y ∈ a → x ≠ y → 0 < Rstd a.
Proof.
  intros Hx Hy Hxy. unfold Rstd. apply sqrt_lt_R0.
  destruct (variance_nonneg a) as [Hpos|Hzero]; [done|]. exfalso.
  assert (INR (length a) ≠ 0) as Hn.
  { apply not_0_INR. by destruct Hx. }
  unfold Rmean at 1 in Hzero. rewrite length_map in Hzero.
  assert (Rsum (map (λ x, Rabs (x - Rmean a) ^ 2) a) = 0) as Hsum.
  { apply (Rmult_eq_reg_r (/ INR (length a))); [|by apply Rinv_neq_0_compat].
    unfold Rdiv in Hzero. lra. }
  apply Rsum_zero in Hsum; [|apply squares_nonneg].
  rewrite Forall_fmap, Forall_forall in Hsum.
  assert (∀ z, z ∈ a → z = Rmean a) as Hall.
  { intros z Hz. specialize (Hsum z Hz). unfold compose in Hsum.
    rewrite pow2_abs in Hsum.
    assert (z - Rmean a = 0) by (apply Rsqr_0_uniq; unfold Rsqr; lra). lra. }
  apply Hxy. by rewrite (Hall x), (Hall y).
Qed.

Lemma Rstd_nonneg a : 0 <= Rstd a.
Proof. apply sqrt_pos. Qed.

(** After standardisation the batch mean is 0. *)
Lemma Rmean_standardize a : a ≠ [] → Rmean (standardize a) = 0.
Proof.
  intros Ha. rewrite standardize_reals. unfold Rmean at 1, Rdiv.
  rewrite Rsum_shift_scale, length_map.
  assert (INR (length a) ≠ 0) as Hn by (apply not_0_INR; by destruct a).
  unfold Rmean, Rdiv. field. split; [done|].
  pose proof (Rstd_nonneg a). lra.
Qed.

(** After standardisation the deviation is [s / (s + 1e-8)]. *)
Lemma Rstd_standardize a :
  a ≠ [] → Rstd (standardize a) = Rstd a / (Rstd a + ε).
Proof.
  intros Ha. unfold Rstd at 1. rewrite (Rmean_standardize a Ha).
  rewrite standardize_reals, map_map.
  pose proof (Rstd_nonneg a) as Hs.
  assert (0 < / (Rstd a + ε)) as Hd by (apply Rinv_0_lt_compat; lra).
  rewrite (map_ext _ (λ x, Rabs (x - Rmean a) ^ 2 * (/ (Rstd a + ε)) ^ 2)).
  2:{ intros x. rewrite !pow2_abs. unfold Rdiv. ring. }
  unfold Rmean at 1. rewrite Rsum_scale, !length_map.
  replace (Rsum (map (λ x, Rabs (x - Rmean a) ^ 2) a) * (/ (Rstd a + ε)) ^ 2
           / INR (length a))
    with (Rmean (map (λ x, Rabs (x - Rmean a) ^ 2) a) * (/ (Rstd a + ε)) ^ 2).
  2:{ unfold Rmean at 1. rewrite length_map. unfold Rdiv. ring. }
  rewrite sqrt_mult_alt by apply variance_nonneg.
  rewrite sqrt_pow2 by lra. done.
Qed.
End standardisation_reals.

Section standardisation_estimator.
Context {collab : Collaborators R}.
Local Open Scope R_scope.

(** C8, as the code has it: with the normalize flag on, whatever mode
    produced the raw advantages [a], the estimator returns
    [(a − mean(a)) / (std(a) + 1e-8)].  In exact arithmetic, for a batch
    whose raw advantages are not all equal, the resulting mean is 0 and
    the resulting standard deviation is [s / (s + 1e-8)] for [s = std(a)]:
    it lies below 1, by less than [1e-8 / s]. *)
Theorem standardisation (self : PGAgent R) obs rewards q_values terminals raw :
  normalize_advantages self = true →
  _estimate_advantage (set_normalize false self) obs rewards q_values terminals
  = Ok raw →
  let s := Rstd raw in
  let advantages := map (λ x, (x - Rmean raw) / (s + 1 / 10 ^ 8)) raw in
  _estimate_advantage self obs rewards q_values terminals = Ok advantages ∧
  ((∃ x y, x ∈ raw ∧ y ∈ raw ∧ x ≠ y) →
   Rmean advantages = 0 ∧
   0 < s ∧
   Rstd advantages = s / (s + 1 / 10 ^ 8) ∧
   0 < 1 - Rstd advantages < (1 / 10 ^ 8) / s).
Proof.
  intros Hflag Hraw s advantages.
  split.
  { rewrite _estimate_advantage_raw, Hraw. cbn. unfold postprocess.
    by rewrite Hflag. }
  intros (x & y & Hx & Hy & Hxy).
  assert (raw ≠ []) as Hne by (by destruct Hx).
  assert (0 < s) as Hs by (by apply (Rstd_pos raw x y)).
  change advantages with (standardize raw).
  rewrite Rmean_standardize, Rstd_standardize by done. fold s.
  split; [done|]. split; [done|]. split; [done|].
  replace (1 - s / (s + 1 / 10 ^ 8)) with ((1 / 10 ^ 8) / (s + 1 / 10 ^ 8))
    by (field; lra).
  split.
  - apply Rdiv_lt_0_compat; lra.
  - unfold Rdiv. apply Rmult_lt_compat_l; [lra|].
    apply Rinv_lt_contravar; [nra|lra].
Qed.
End standardisation_estimator.

Section standardisation_counterexample.
Local Open Scope R_scope.

Lemma Rstd_pair e : 0 <= e → Rstd [0; 2 * e] = e.
Proof.
  intros He. unfold Rstd.
  assert (Rmean [0; 2 * e] = e) as -> by (unfold Rmean; cbn; lra).
  unfold Rmean. cbn [map length Rsum foldr]. rewrite !pow2_abs.
  match goal with |- sqrt ?v = _ => replace v with (e ^ 2) by (simpl INR; field) end.
  by apply sqrt_pow2.
Qed.

(** C8 fails on the code: raw advantages [[0, 2e-8]] (no baseline, so the
    raw advantages are the Q-values) are not all equal, and the
    standardised batch has deviation 1/2. *)
Lemma standardised_deviation_one_half :
  ∃ advantages,
    real_estimate (real_agent 1 true None None None true)
      [2; 3] [0; 0] [0; 2 * (1 / 10 ^ 8)] [0; 1] = Ok advantages ∧
    0 ≠ 2 * (1 / 10 ^ 8) ∧
    Rmean advantages = 0 ∧
    Rstd advantages = 1 / 2 ∧
    Rabs (Rstd advantages - 1) = 1 / 2.
Proof.
  exists (standardize [0; 2 * (1 / 10 ^ 8)]).
  split; [reflexivity|]. split; [lra|].
  rewrite Rmean_standardize, Rstd_standardize, Rstd_pair by (done || lra).
  split; [done|].
  replace (1 / 10 ^ 8 / (1 / 10 ^ 8 + 1 / 10 ^ 8)) with (1 / 2) by (field; lra).
  split; [done|].
  replace (1 / 2 - 1) with (- (1 / 2)) by lra.
  rewrite Rabs_Ropp, Rabs_pos_eq; lra.
Qed.
End standardisation_counterexample.

(** ** The statements at concrete inputs *)

Section concrete.
Local Open Scope R_scope.

(** Two trajectories, [[2, 3]] and [[4]], over the reals; the critic of
    [counting] predicts the observation itself. *)
Lemma gae_advantages_witness :
  real_estimate (real_agent (9 / 10) true (Some 0%nat) (Some 1%Z) (Some (1 / 2)) false)
    [2; 3; 4] [1; 1; 5] [0; 0; 0] [0; 1; 1]
  = Ok (gae_spec (9 / 10) (1 / 2) [1; 1; 5] [2; 3; 4] [0; 1; 1] 3).
Proof.
  exact (proj1 (gae_advantages (collab := counting R)
    (real_agent (9 / 10) true (Some 0%nat) (Some 1%Z) (Some (1 / 2)) false)
    0%nat (1 / 2) [2; 3; 4] [1; 1; 5] [0; 0; 0] [0; 1; 1]
    eq_refl eq_refl eq_refl eq_refl eq_refl)).
Defined.

(** The same batch evaluated: [γ = 0.9], [λ = 0.5], values [[2, 3, 4]],
    rewards [[1, 1, 5]], terminal markers [[0, 1, 1]]. *)
Example gae_example :
  real_estimate (real_agent (9 / 10) true (Some 0%nat) (Some 1%Z) (Some (1 / 2)) false)
    [2; 3; 4] [1; 1; 5] [0; 0; 0] [0; 1; 1]
  = Ok [4 / 5; -2; 1].
Proof.
  unfold real_estimate.
  rewrite (_estimate_advantage_gae (collab := counting R) _ 0%nat (1 / 2))
    by reflexivity.
  cbn. repeat f_equal; lra.
Qed.

(** A batch of a single transition never reaches the recursion: the
    prediction is squeezed to a scalar and the shape assertion fails. *)
Example gae_batch_of_one :
  real_estimate (real_agent (9 / 10) true (Some 0%nat) (Some 1%Z) (Some (1 / 2)) false)
    [2] [1] [1] [1]
  = Raise AssertionError.
Proof. reflexivity. Qed.

Lemma gae_ignores_q_values_witness :
  real_estimate (real_agent (9 / 10) true (Some 0%nat) (Some 1%Z) (Some (1 / 2)) false)
    [2; 3; 4] [1; 1; 5] [0; 0; 0] [0; 1; 1]
  = real_estimate (real_agent (9 / 10) true (Some 0%nat) (Some 1%Z) (Some (1 / 2)) false)
      [2; 3; 4] [1; 1; 5] [7; 8; 9] [0; 1; 1] ∧
  ∃ advantages,
    real_estimate (real_agent (9 / 10) true (Some 0%nat) (Some 1%Z) (Some (1 / 2)) false)
      [2; 3; 4] [1; 1; 5] [0; 0; 0] [0; 1; 1] = Ok advantages ∧
    real_estimate (real_agent (9 / 10) true (Some 0%nat) (Some 1%Z) (Some (1 / 2)) false)
      [2; 3; 4] [1; 1; 5] [7; 8; 9] [0; 1; 1] = Ok advantages.
Proof.
  destruct (gae_ignores_q_values (collab := counting R)
              (real_agent (9 / 10) true (Some 0%nat) (Some 1%Z) (Some (1 / 2)) false)
              0%nat (1 / 2) [2; 3; 4] [1; 1; 5] [0; 0; 0] [7; 8; 9] [0; 1; 1]
              eq_refl eq_refl eq_refl) as [Hsame Hok].
  split; [exact Hsame|]. apply Hok; reflexivity.
Defined.


Lemma standardisation_witness :
  let s := Rstd [0; 2] in
  let advantages := map (λ x, (x - Rmean [0; 2]) / (s + 1 / 10 ^ 8)) [0; 2] in
  real_estimate (real_agent 1 true None None None true) [2; 3] [0; 0] [0; 2] [0; 1]
  = Ok advantages ∧
  ((∃ x y, x ∈ [0; 2] ∧ y ∈ [0; 2] ∧ x ≠ y) →
   Rmean advantages = 0 ∧
   0 < s ∧
   Rstd advantages = s / (s + 1 / 10 ^ 8) ∧
   0 < 1 - Rstd advantages < (1 / 10 ^ 8) / s).
Proof.
  apply (standardisation (collab := counting R)
           (real_agent 1 true None None None true) [2; 3] [0; 0] [0; 2] [0; 1]).
  - reflexivity.
  - reflexivity.
Defined.

Lemma construction_checks_nothing_witness :
  ∃ self,
    @PGAgent_init R (counting R) 4 2 true 2 64 (99 / 100) (1 / 200)
      true true (Some (1 / 100)) (Some 5%Z) (Some (95 / 100)) false = Ok self ∧
    actor self = 0%nat ∧ gamma self = 99 / 100 ∧ use_reward_to_go self = true ∧
    gae_lambda self = Some (95 / 100) ∧ normalize_advantages self = false ∧
    (true = false → critic self = None) ∧
    (true = true →
     ∃ c, @ValueCritic_init R (counting R) 4 2 64 (Some (1 / 100)) = Ok c ∧
          critic self = Some c ∧ baseline_gradient_steps self = Some 5%Z).
Proof.
  apply (construction_checks_nothing (collab := counting R)).
  - reflexivity.
  - intros _. exists 0%nat. reflexivity.
Defined.
End concrete.

(** C1 on a batch of one transition, on binary64: the recursion
    prescribes the single advantage [r_0 − V_0 = 1 − 2], and the estimator
    raises [AssertionError]: the prediction for one observation has been
    squeezed to a scalar, whose shape differs from the Q-values' [(1,)]. *)
Lemma gae_single_transition_fails :
  float_estimate (float_agent 1 (Some 0) (Some 1%float))
    [2]%float [1]%float [0]%float [1]%float
  = Raise AssertionError ∧
  shape (squeeze (ValueCritic_forward (collab := float_collaborators) 0 [2]%float))
  = [] ∧
  shape (as_array [0]%float) = [1] ∧
  gae_spec (num := float_number) 1%float 1%float [1]%float [2]%float [1]%float 1
  = [-1]%float.
Proof. repeat split; reflexivity. Qed.


Section concrete_updates.
Local Open Scope R_scope.

(** One trajectory of two steps, a baseline and two baseline steps. *)
Lemma update_protocol_witness :
  ∃ info w',
    real_update [[2; 3]] [[0; 1]%nat] [[1; 1]] [[0; 1]]
      (fresh (real_agent 1 true (Some 0%nat) (Some 2%Z) None false)) = (Ok info, w') ∧
    actor (agent w') = 1%nat ∧
    critic (agent w') = Some 2%nat ∧
    length (calls w') = 3%nat ∧
    is_Some (info !! "actor_info") ∧
    is_Some (info !! "critic_info") ∧
    is_Some (info !! "Baseline Loss").
Proof.
  pose (w := fresh (real_agent 1 true (Some 0%nat) (Some 2%Z) None false)).
  pose (q := concat [reward_to_go_spec 1 [1; 1]]).
  pose (advantages := zip_with Rminus q [2; 3]).
  pose (critic_info := {["Baseline Loss" := 0]} : gmap string R).
  pose (info := (@ScalarV R (counting R) <$> critic_info)
                ∪ <["critic_info" := @CriticInfoV R (counting R) critic_info]>
                    {["actor_info" := @ActorInfoV R (counting R) 0%nat]}).
  pose (w' := @World R (counting R)
                (@set_critic R (counting R) 2%nat
                   (@set_actor R (counting R) 1%nat (agent w)))
                [@ActorUpdate R (counting R) [2; 3] [0; 1]%nat advantages;
                 @CriticUpdate R (counting R) [2; 3] q;
                 @CriticUpdate R (counting R) [2; 3] q]).
  assert (real_update [[2; 3]] [[0; 1]%nat] [[1; 1]] [[0; 1]] w = (Ok info, w'))
    as Hrun by reflexivity.
  exists info, w'. split; [exact Hrun|].
  destruct (update_protocol (collab := counting R) _ _ _ _ _ _ _ Hrun)
    as (q_values & advantages' & actor' & actor_info & Hq & Hadv & Hupd & Hactor
        & Hinfo & k & n & Hk & Hn & Hcalls & Hcritic & _ & Hlast).
  injection Hk as <-. assert (n = 2%nat) as -> by lia.
  destruct Hlast as (loss & _ & Hci & Hloss); [lia|].
  split; [reflexivity|]. split; [reflexivity|]. split; [reflexivity|]. eauto.
Defined.

(** A batch of one transition with a baseline: the prediction is squeezed
    to a scalar, and the shapes differ. *)
Lemma shape_mismatch_aborts_witness :
  real_update [[2]] [[0%nat]] [[1]] [[1]]
    (fresh (real_agent 1 true (Some 0%nat) (Some 1%Z) None false))
  = (Raise AssertionError,
     fresh (real_agent 1 true (Some 0%nat) (Some 1%Z) None false)).
Proof.
  eapply (shape_mismatch_aborts (collab := counting R) _ _ _ _ _ 0%nat).
  - reflexivity.
  - discriminate.
  - discriminate.
  - discriminate.
  - discriminate.
  - reflexivity.
  - simpl. discriminate.
Defined.

(** More observations than rewards, with a baseline: same failure. *)
Example fewer_rewards_abort :
  real_update [[2; 3; 4]] [[0; 1; 0]%nat] [[1; 1]] [[0; 0; 1]]
    (fresh (real_agent 1 true (Some 0%nat) (Some 1%Z) None false))
  = (Raise AssertionError,
     fresh (real_agent 1 true (Some 0%nat) (Some 1%Z) None false)).
Proof. reflexivity. Qed.

Lemma update_checks_no_lengths_witness :
  real_update [[2; 3]] [[0; 0]%nat] [[1; 1]] [[0; 0; 1]]
    (fresh (real_agent 1 true None None None false))
  = (actor_info ← actor_update (collab := counting R) [2; 3] [0; 0]%nat
                    (postprocess (real_agent 1 true None None None false)
                       (concat [reward_to_go_spec 1 [1; 1]]));
     mret {["actor_info" := ActorInfoV (collab := counting R) actor_info]})
      (fresh (real_agent 1 true None None None false)).
Proof.
  apply (update_checks_no_lengths (collab := counting R)
           [[2; 3]] [[0; 0]%nat] [[1; 1]] [[0; 0; 1]]
           (fresh (real_agent 1 true None None None false))
           [reward_to_go_spec 1 [1; 1]]).
  - reflexivity.
  - discriminate.
  - discriminate.
  - discriminate.
  - discriminate.
  - reflexivity.
Defined.
End concrete_updates.

(** * Further properties of the code *)

(** ** Q-values: alignment, undiscounted sums, backward accumulation *)

Section q_value_shape.
Context {F : Type} {num : Number F} {collab : Collaborators F}.
Implicit Types (self : PGAgent F).

Lemma length_concat_map (g : list F → list F) (rewards : list (list F)) :
  (∀ rs, length (g rs) = length rs) →
  length (concat (map g rewards)) = length (concat rewards).
Proof.
  intros Hg. induction rewards as [|rs rewards IH]; [done|].
  cbn. by rewrite !length_app, Hg, IH.
Qed.

(** X1: when [_calculate_q_vals] returns, in either mode, it has returned
    one list per trajectory, each as long as that trajectory's rewards, so
    that the flattened Q-values line up with the flattened rewards. *)
Theorem q_values_aligned self (rewards : list (list F)) q_values :
  _calculate_q_vals self rewards = Ok q_values →
  length q_values = length rewards ∧
  (∀ k rs q, rewards !! k = Some rs → q_values !! k = Some q →
             length q = length rs) ∧
  length (concat q_values) = length (concat rewards).
Proof.
  unfold _calculate_q_vals. destruct (use_reward_to_go self); cbn [negb].
  - rewrite (mapM_Ok _ (reward_to_go_spec (gamma self)))
      by (intros; apply _discounted_reward_to_go_spec).
    intros [= <-]. split; [by rewrite length_map|]. split.
    + intros k rs q Hk. rewrite list_lookup_fmap, Hk. intros [= <-].
      apply length_reward_to_go_spec.
    + apply length_concat_map, length_reward_to_go_spec.
  - rewrite (mapM_Ok _ (full_return_spec (gamma self)))
      by (intros; apply _discounted_return_spec).
    intros [= <-]. split; [by rewrite length_map|]. split.
    + intros k rs q Hk. rewrite list_lookup_fmap, Hk. intros [= <-].
      apply length_replicate.
    + apply length_concat_map. intros. apply length_replicate.
Qed.

(** X2: with [γ = 1] the reward-to-go at [t] is the plain sum of the
    rewards from [t] on. *)
Theorem reward_to_go_undiscounted self (rewards : list F) :
  gamma self = 1%num →
  (∀ n, (1 : F) ^ n = 1)%num → (∀ x : F, 1 * x = x)%num →
  _discounted_reward_to_go self rewards
  = Ok (map (λ t, Sigma t (length rewards) (at_index rewards))
          (seq 0 (length rewards))).
Proof.
  intros Hγ Hpow Hmul. rewrite _discounted_reward_to_go_spec.
  unfold reward_to_go_spec. f_equal. apply map_ext. intros t.
  unfold tail_sum, Sigma. apply sum_from_ext. intros t' _.
  by rewrite Hγ, Hpow, Hmul.
Qed.
End q_value_shape.

Lemma q_values_aligned_witness :
  length [[7; 3; 1]; [5]]%Z = length [[1; 1; 1]; [5]]%Z ∧
  (∀ k rs q, [[1; 1; 1]; [5]]%Z !! k = Some rs →
             [[7; 3; 1]; [5]]%Z !! k = Some q → length q = length rs) ∧
  length (concat [[7; 3; 1]; [5]]%Z) = length (concat [[1; 1; 1]; [5]]%Z).
Proof.
  apply (q_values_aligned (int_agent 2 true None None None)
           [[1; 1; 1]; [5]]%Z [[7; 3; 1]; [5]]%Z).
  reflexivity.
Defined.

Lemma reward_to_go_undiscounted_witness :
  _discounted_reward_to_go (int_agent 1 true None None None) [3; 4; 5]%Z
  = Ok (map (λ t, Sigma t 3 (at_index [3; 4; 5]%Z)) (seq 0 3)).
Proof.
  apply (reward_to_go_undiscounted (int_agent 1 true None None None) [3; 4; 5]%Z).
  - reflexivity.
  - intros n. simpl. apply Z.pow_1_l. lia.
  - intros x. simpl. lia.
Defined.

Section q_value_recurrence.
Context {collab : Collaborators R}.
Local Open Scope R_scope.
Implicit Types (f g : nat → R) (rewards : list R).

Lemma sum_from_head f lo n :
  sum_from lo (S n) f = f lo + sum_from (S lo) n f.
Proof.
  induction n as [|n IH].
  - cbn. rewrite Nat.add_0_r. lra.
  - change (sum_from lo (S (S n)) f)
      with (sum_from lo (S n) f + f (lo + S n)%nat).
    rewrite IH. cbn [sum_from add R_number].
    replace (lo + S n)%nat with (S lo + n)%nat by lia. lra.
Qed.

Lemma sum_from_scale f lo n k :
  k * sum_from lo n f = sum_from lo n (λ t, k * f t).
Proof.
  induction n as [|n IH]; cbn [sum_from add zero R_number]; [lra|].
  rewrite <- IH. lra.
Qed.

(** The reward-to-go satisfies [Q_t = r_t + γ Q_{t+1}], with [Q_T = 0]. *)
Lemma tail_sum_step γ rewards t :
  (t < length rewards)%nat →
  tail_sum γ rewards t = at_index rewards t + γ * tail_sum γ rewards (S t).
Proof.
  intros Ht. unfold tail_sum, Sigma.
  replace (length rewards - t)%nat with (S (length rewards - S t)) by lia.
  rewrite sum_from_head, sum_from_scale.
  cbn [pow mul R_number]. rewrite Nat.sub_diag.
  f_equal; [cbn; lra|].
  apply sum_from_ext. intros t' Ht'.
  replace (t' - t)%nat with (S (t' - S t)) by lia. cbn. lra.
Qed.

Lemma tail_sum_end γ rewards : tail_sum γ rewards (length rewards) = 0.
Proof. unfold tail_sum, Sigma. by rewrite Nat.sub_diag. Qed.

(** X3: over the reals the double sum of [_discounted_reward_to_go] is the
    backward accumulation: its output [Q] satisfies [Q_t = r_t + γ·Q_{t+1}]
    at every index, reading [Q_T] as 0. *)
Theorem reward_to_go_backward_accumulation (self : PGAgent R) rewards :
  ∃ q,
    _discounted_reward_to_go self rewards = Ok q ∧
    length q = length rewards ∧
    ∀ t, (t < length rewards)%nat →
      at_index q t = at_index rewards t + gamma self * at_index q (S t).
Proof.
  exists (reward_to_go_spec (gamma self) rewards).
  split; [apply _discounted_reward_to_go_spec|].
  split; [apply length_reward_to_go_spec|].
  assert (∀ t, (t ≤ length rewards)%nat →
            at_index (reward_to_go_spec (gamma self) rewards) t
            = tail_sum (gamma self) rewards t) as Hq.
  { intros t Ht. destruct (decide (t = length rewards)) as [->|Hne].
    - unfold at_index. rewrite lookup_ge_None_2
        by (by rewrite length_reward_to_go_spec).
      by rewrite tail_sum_end.
    - apply at_index_Some, lookup_reward_to_go_spec. lia. }
  intros t Ht. rewrite !Hq by lia. by apply tail_sum_step.
Qed.
End q_value_recurrence.

(** ** Advantages: the baseline mode, and how the estimator fails *)

Section estimator_outcomes.
Context {F : Type} {num : Number F} {npy : Numpy F} {collab : Collaborators F}.
Implicit Types (self : PGAgent F) (c : CriticParams) (obs : list Obs).
Implicit Types (rewards q_values terminals : list F).

(** X4: with a baseline and no GAE λ, on a batch that passes the shape
    assertion, the raw advantage at every index is the Q-value minus the
    critic's prediction for that observation; rewards and terminal markers
    are not read. *)
Theorem baseline_advantages self c obs rewards q_values terminals :
  critic self = Some c → gae_lambda self = None →
  normalize_advantages self = false →
  length obs = length q_values → length obs ≠ 1 →
  ∃ advantages,
    _estimate_advantage self obs rewards q_values terminals = Ok advantages ∧
    length advantages = length obs ∧
    ∀ i q o, q_values !! i = Some q → obs !! i = Some o →
             advantages !! i = Some (q - network c o)%num.
Proof.
  intros Hc Hlam Hnorm Hlen Hone.
  rewrite (_estimate_advantage_baseline self c) by (by try apply shape_check).
  unfold postprocess. rewrite Hnorm. eexists. split; [done|]. split.
  - rewrite length_zip_with, length_map. lia.
  - intros i q o Hq Ho. rewrite lookup_zip_with, Hq, list_lookup_fmap, Ho. done.
Qed.






(** X6: in GAE mode, on a batch that passes the shape assertion, rewards or
    terminal markers shorter than the batch make the estimator raise
    [IndexError]. *)
Theorem gae_short_arrays_raise self c lam obs rewards q_values terminals :
  critic self = Some c → gae_lambda self = Some lam →
  length obs = length q_values → length obs ≠ 1 →
  length rewards < length obs ∨ length terminals < length obs →
  _estimate_advantage self obs rewards q_values terminals = Raise IndexError.
Proof.
  intros Hc Hlam Hlen Hone Hshort.
  assert (shape (squeeze (ValueCritic_forward c obs)) = shape (as_array q_values))
    as Hshape by (by apply shape_check).
  unfold _estimate_advantage. rewrite Hc, decide_True, Hlam by done.
  rewrite data_ValueCritic_forward.
  destruct (length obs) as [|b] eqn:HB; [lia|].
  unfold range, range2. rewrite Nat.sub_0_r, seq_S, rev_unit.
  cbn [for_each].
  assert (∀ st, gae_body self lam rewards (map (network c) obs ++ [0%num])
                  terminals st b = Raise IndexError) as Hstep.
  { intros [advantages next]. unfold gae_body.
    destruct (decide (length rewards ≤ b)) as [Hr|Hr].
    { by rewrite (getitem_None rewards) by done. }
    destruct (lookup_lt_is_Some_2 rewards b) as [r Hrb]; [lia|].
    rewrite (getitem_Some _ _ _ Hrb). cbn.
    destruct (lookup_lt_is_Some_2 (map (network c) obs ++ [0%num]) (b + 1))
      as [v Hv].
    { rewrite length_app, length_map, HB. cbn. lia. }
    rewrite (getitem_Some _ _ _ Hv). cbn.
    by rewrite (getitem_None terminals) by lia. }
  by rewrite Hstep.
Qed.
End estimator_outcomes.

(** ** Advantages: special cases of the GAE recursion *)

Section gae_cases.
Context {F : Type} {num : Number F} {npy : Numpy F} {collab : Collaborators F}.
Implicit Types (self : PGAgent F) (c : CriticParams) (obs : list Obs).
Implicit Types (rewards q_values terminals : list F).

Lemma for_each_ext {S X} (body1 body2 : S → X → result S) xs st :
  (∀ st x, x ∈ xs → body1 st x = body2 st x) →
  for_each body1 xs st = for_each body2 xs st.
Proof.
  revert st. induction xs as [|x xs IH]; intros st Hbody; [done|].
  cbn. rewrite Hbody by left. destruct (body2 st x) as [st'|e]; cbn; [|done].
  apply IH. intros st'' y Hy. apply Hbody. by right.
Qed.

Lemma getitem_take {A} (l : list A) n i : i < n → getitem (take n l) i = getitem l i.
Proof. intros Hi. unfold getitem. by rewrite lookup_take_lt. Qed.

(** X7: the estimator reads rewards and terminal markers only at the
    indices of the batch: entries past the number of observations change
    nothing, in any mode. *)
Theorem estimator_ignores_trailing_entries self obs rewards q_values terminals :
  _estimate_advantage self obs rewards q_values terminals
  = _estimate_advantage self obs (take (length obs) rewards) q_values
      (take (length obs) terminals).
Proof.
  unfold _estimate_advantage.
  destruct (critic self) as [c|]; [|done].
  case_decide; [|done].
  destruct (gae_lambda self) as [lam|]; [|done].
  f_equal. f_equal. apply for_each_ext.
  intros [advantages next] i Hi%list_elem_of_In%in_rev%in_seq.
  unfold range, range2 in Hi. unfold gae_body.
  by rewrite !getitem_take by lia.
Qed.

End gae_cases.

Section gae_cases_reals.
Context {collab : Collaborators R}.
Local Open Scope R_scope.
Implicit Types (self : PGAgent R) (c : CriticParams) (obs : list Obs).
Implicit Types (rewards q_values terminals : list R).

(** X8: over the reals, on an aligned batch of not exactly one
    observation, GAE with [λ = 0] gives the one-step residual
    [δ_i = r_i + γ·V_{i+1}·(1 − terminal_i) − V_i] at every index. *)
Theorem gae_lambda_zero self c obs rewards q_values terminals :
  critic self = Some c → gae_lambda self = Some 0 →
  normalize_advantages self = false →
  length rewards = length obs → length terminals = length obs →
  length q_values = length obs → length obs ≠ 1%nat →
  _estimate_advantage self obs rewards q_values terminals
  = Ok (map (gae_delta (gamma self) rewards (map (network c) obs) terminals)
          (seq 0 (length obs))).
Proof.
  intros Hc Hlam Hnorm Hr Ht Hq Hone.
  rewrite (_estimate_advantage_gae self c 0)
    by (try apply shape_check; done).
  unfold postprocess, gae_spec. rewrite Hnorm. f_equal.
  apply map_ext_in. intros i [_ Hi]%in_seq.
  replace (length obs - i)%nat with (S (length obs - S i)) by lia.
  cbn [gae_A add mul sub zero one R_number]. ring.
Qed.

(** X9: over the reals, on an aligned batch of not exactly one
    observation, the GAE advantage at an index that carries the terminal
    marker is [r_i − V_i]: neither the next value nor the next advantage
    enters. *)
Theorem gae_at_terminal self c lam obs rewards q_values terminals i r o :
  critic self = Some c → gae_lambda self = Some lam →
  normalize_advantages self = false →
  length rewards = length obs → length terminals = length obs →
  length q_values = length obs → length obs ≠ 1%nat →
  terminals !! i = Some 1 → rewards !! i = Some r → obs !! i = Some o →
  ∃ advantages,
    _estimate_advantage self obs rewards q_values terminals = Ok advantages ∧
    advantages !! i = Some (r - network c o).
Proof.
  intros Hc Hlam Hnorm Hr Ht Hq Hone Hti Hri Hoi.
  rewrite (_estimate_advantage_gae self c lam)
    by (try apply shape_check; done).
  eexists. split; [done|].
  assert (i < length obs)%nat as Hi by (by eapply lookup_lt_Some).
  unfold postprocess, gae_spec. rewrite Hnorm.
  rewrite list_lookup_fmap, lookup_seq_lt by done.
  cbn [fmap option_fmap option_map]. change (0 + i)%nat with i. f_equal.
  replace (length obs - i)%nat with (S (length obs - S i)) by lia.
  cbn [gae_A]. unfold gae_delta.
  rewrite (at_index_Some _ _ _ Hti), (at_index_Some _ _ _ Hri).
  rewrite (at_index_Some (map (network c) obs) i (network c o))
    by (by rewrite list_lookup_fmap, Hoi).
  cbn [add mul sub zero one R_number]. ring.
Qed.
End gae_cases_reals.

Section gae_lambda_one.
Context {collab : Collaborators R}.
Local Open Scope R_scope.
Implicit Types (self : PGAgent R) (c : CriticParams) (obs : list Obs).
Implicit Types (rewards q_values terminals V : list R).

(** On one trajectory (markers 0, ..., 0, 1) the recursion with [λ = 1]
    telescopes to the reward-to-go minus the value. *)
Lemma gae_A_telescopes γ rewards V terminals T :
  length V = T →
  (∀ i, (S i < T)%nat → terminals !! i = Some 0) →
  (∀ i, S i = T → terminals !! i = Some 1) →
  length rewards = T →
  ∀ k i, (i + k = T)%nat →
    gae_A γ 1 rewards V terminals k i = tail_sum γ rewards i - at_index V i.
Proof.
  intros HV Hmid Hend Hr. induction k as [|k IH]; intros i Hi.
  - assert (i = T) as -> by lia. cbn [gae_A zero R_number].
    rewrite <- Hr at 1. rewrite tail_sum_end.
    unfold at_index. rewrite lookup_ge_None_2 by lia. cbn. lra.
  - cbn [gae_A]. rewrite (IH (S i)) by lia. unfold gae_delta.
    rewrite (tail_sum_step γ rewards i) by lia.
    cbn [add sub mul one zero R_number].
    destruct (decide (S i = T)) as [Hlast|Hmore].
    + rewrite (at_index_Some _ _ _ (Hend i Hlast)).
      assert (tail_sum γ rewards (S i) = 0) as ->
        by (rewrite Hlast, <- Hr; apply tail_sum_end).
      ring.
    + rewrite (at_index_Some _ _ _ (Hmid i ltac:(lia))). ring.
Qed.

(** X10: over the reals, on a batch that is one trajectory (terminal
    marker 1 at the last index and 0 before it), GAE with [λ = 1] gives the
    reward-to-go minus the critic's prediction at every index. *)
Theorem gae_lambda_one self c obs rewards q_values terminals :
  critic self = Some c → gae_lambda self = Some 1 →
  length rewards = length obs → length terminals = length obs →
  length q_values = length obs → length obs ≠ 1%nat →
  (∀ i, (S i < length obs)%nat → terminals !! i = Some 0) →
  (∀ i, S i = length obs → terminals !! i = Some 1) →
  _estimate_advantage self obs rewards q_values terminals
  = Ok (postprocess self
          (zip_with Rminus (reward_to_go_spec (gamma self) rewards)
             (map (network c) obs))).
Proof.
  intros Hc Hlam Hr Ht Hq Hone Hmid Hend.
  rewrite (_estimate_advantage_gae self c 1)
    by (try apply shape_check; done).
  do 2 f_equal. apply list_eq. intros i. unfold gae_spec.
  rewrite list_lookup_fmap, lookup_zip_with.
  destruct (decide (i < length obs)%nat) as [Hi|Hi].
  - rewrite lookup_seq_lt by done. cbn.
    rewrite lookup_reward_to_go_spec by lia. cbn.
    destruct (lookup_lt_is_Some_2 (map (network c) obs) i) as [v Hv];
      [by rewrite length_map|].
    rewrite Hv. cbn. f_equal.
    rewrite (gae_A_telescopes _ _ _ _ (length obs)); try done.
    + by rewrite (at_index_Some _ _ _ Hv).
    + by rewrite length_map.
    + lia.
  - rewrite lookup_seq_ge by lia. cbn.
    rewrite (lookup_ge_None_2 (reward_to_go_spec _ _))
      by (rewrite length_reward_to_go_spec; lia).
    done.
Qed.
End gae_lambda_one.

(** ** Standardisation: constant batches and shifts *)

Section standardisation_cases.
Context {collab : Collaborators R}.
Local Open Scope R_scope.
Implicit Types (self : PGAgent R) (a : list R).





Lemma Rsum_shift a k : Rsum (map (λ x, x + k) a) = Rsum a + INR (length a) * k.
Proof.
  induction a as [|x a IH]; [cbn; lra|].
  cbn [map Rsum foldr length]. fold (Rsum (map (λ x, x + k) a)). fold (Rsum a).
  rewrite IH, S_INR. lra.
Qed.

Lemma Rmean_shift a k : a ≠ [] → Rmean (map (λ x, x + k) a) = Rmean a + k.
Proof.
  intros Ha. unfold Rmean. rewrite Rsum_shift, length_map.
  field. apply not_0_INR. by destruct a.
Qed.

Lemma Rstd_shift a k : a ≠ [] → Rstd (map (λ x, x + k) a) = Rstd a.
Proof.
  intros Ha. unfold Rstd. rewrite Rmean_shift by done. rewrite map_map.
  f_equal. f_equal. apply map_ext. intros x. f_equal. f_equal. lra.
Qed.

(** X12: with no baseline and the normalize flag on, adding one constant
    to every Q-value does not change the advantages. *)
Theorem standardisation_is_shift_invariant self obs rewards q_values terminals k :
  critic self = None → normalize_advantages self = true →
  _estimate_advantage self obs rewards (map (λ q, q + k) q_values) terminals
  = _estimate_advantage self obs rewards q_values terminals.
Proof.
  intros Hc Hflag. rewrite !_estimate_advantage_no_baseline by done.
  unfold postprocess. rewrite Hflag. f_equal.
  destruct q_values as [|q q_values]; [done|].
  rewrite !standardize_reals.
  rewrite Rmean_shift, Rstd_shift by done. rewrite map_map.
  apply map_ext. intros x. f_equal. lra.
Qed.
End standardisation_cases.

(** ** The training step: failures and what they leave behind *)

Section update_outcomes.
Context {F : Type} {num : Number F} {npy : Numpy F} {collab : Collaborators F}.
Implicit Types (w : world) (self : PGAgent F).

(** X13: when one of the four input lists holds no trajectory, [update]
    raises [ValueError] (from [np.concatenate]) and changes nothing. *)
Theorem update_on_empty_input obs actions rewards terminals w :
  obs = [] ∨ actions = [] ∨ rewards = [] ∨ terminals = [] →
  update obs actions rewards terminals w = (Raise ValueError, w).
Proof.
  intros Hempty.
  destruct (_calculate_q_vals_total (agent w) rewards) as (q_values & Hq & Hlen).
  unfold update, mbind at 1 2 3 4 5 6 7 8, Eff_bind, get_self, lift.
  rewrite Hq.
  destruct obs as [|o obs]; [done|].
  destruct actions as [|a actions]; [done|].
  destruct rewards as [|r rewards]; [done|].
  destruct terminals as [|t terminals]; [done|].
  by destruct Hempty as [?|[?|[?|?]]].
Qed.

(** X14: when the Policy's update raises, [update] raises the same
    exception (it catches nothing) and the baseline's update is not called:
    the critic's parameters are unchanged and the log holds only the call
    to the Policy. *)
Theorem update_policy_failure obs actions rewards terminals w q_values advantages e :
  obs ≠ [] → actions ≠ [] → rewards ≠ [] → terminals ≠ [] →
  _calculate_q_vals (agent w) rewards = Ok q_values →
  _estimate_advantage (agent w) (concat obs) (concat rewards) (concat q_values)
    (concat terminals) = Ok advantages →
  MLPPolicyPG_update (actor (agent w)) (concat obs) (concat actions) advantages
  = Raise e →
  ∃ w',
    update obs actions rewards terminals w = (Raise e, w') ∧
    critic (agent w') = critic (agent w) ∧
    calls w' = calls w ++ [ActorUpdate (concat obs) (concat actions) advantages].
Proof.
  intros Hobs Hact Hrew Hter Hq Hadv Hupd.
  rewrite (update_prefix _ _ _ _ _ q_values), Hadv by done.
  unfold mbind, Eff_bind, actor_update. cbn. rewrite Hupd.
  by eexists.
Qed.

(** The baseline loop stops at the first step whose loss raises: the steps
    before it have been applied, the failing one has not. *)
Lemma critic_loop_Raise obs q_values e j :
  ∀ (steps : list nat) (st : gmap string info_value * gmap string F) w c,
  critic (agent w) = Some c →
  j < length steps →
  (∀ i, i < j →
     ∃ loss, mse_loss (ValueCritic_forward (critic_after c obs q_values i) obs)
               q_values = Ok loss) →
  mse_loss (ValueCritic_forward (critic_after c obs q_values j) obs) q_values
  = Raise e →
  ∃ w',
    for_eachE (λ '(info, _) _,
        critic_info ← critic_update obs q_values;
        mret (<["critic_info" := CriticInfoV critic_info]> info, critic_info))
      steps st w = (Raise e, w') ∧
    calls w' = calls w ++ replicate (S j) (CriticUpdate obs q_values) ∧
    actor (agent w') = actor (agent w) ∧
    critic (agent w') = Some (critic_after c obs q_values j).
Proof.
  induction j as [|j IH]; intros steps [info critic_info] w c Hc Hj Hbefore Hfail.
  - destruct steps as [|x steps]; [cbn in Hj; lia|].
    cbn [for_eachE]. unfold mbind, Eff_bind, critic_update, ValueCritic_update.
    rewrite Hc. cbn in Hfail. cbn. rewrite Hfail. cbn.
    eexists. split; [done|]. cbn. by rewrite Hc.
  - destruct steps as [|x steps]; [cbn in Hj; lia|].
    destruct (Hbefore 0) as [loss Hloss]; [lia|]. cbn in Hloss.
    set (w1 := World (set_critic (optimizer_step c obs q_values) (agent w))
                 (calls w ++ [CriticUpdate obs q_values])).
    destruct (IH steps
                (<["critic_info" := CriticInfoV {["Baseline Loss" := loss]}]> info,
                 {["Baseline Loss" := loss]})
                w1 (optimizer_step c obs q_values))
      as (w' & Hrun & Hcalls & Hactor & Hcritic).
    + done.
    + cbn in Hj. lia.
    + intros i Hi. destruct (Hbefore (S i)) as [l Hl]; [lia|].
      exists l. unfold critic_after in *. by rewrite Nat.iter_succ_r in Hl.
    + unfold critic_after in *. by rewrite Nat.iter_succ_r in Hfail.
    + exists w'. split.
      * cbn [for_eachE]. unfold mbind at 1, Eff_bind at 1.
        unfold mbind at 1, Eff_bind at 1, critic_update, ValueCritic_update.
        rewrite Hc. cbn. rewrite Hloss. cbn. exact Hrun.
      * split; [|split].
        -- rewrite Hcalls. cbn. by rewrite <- app_assoc.
        -- by rewrite Hactor.
        -- rewrite Hcritic. f_equal. unfold critic_after.
           by rewrite Nat.iter_succ_r.
Qed.

(** X15: when the loss of baseline step [j] (counting from 0) raises,
    [update] raises the same exception with the Policy already updated and
    the baseline trained [j] times: a failure among the baseline steps leaves
    both networks changed. *)
Theorem update_baseline_failure obs actions rewards terminals w c k j
    q_values advantages a actor_info e :
  critic (agent w) = Some c → baseline_gradient_steps (agent w) = Some k →
  j < Z.to_nat k →
  obs ≠ [] → actions ≠ [] → rewards ≠ [] → terminals ≠ [] →
  _calculate_q_vals (agent w) rewards = Ok q_values →
  _estimate_advantage (agent w) (concat obs) (concat rewards) (concat q_values)
    (concat terminals) = Ok advantages →
  MLPPolicyPG_update (actor (agent w)) (concat obs) (concat actions) advantages
  = Ok (a, actor_info) →
  (∀ i, i < j →
     ∃ loss, mse_loss (ValueCritic_forward
                         (critic_after c (concat obs) (concat q_values) i)
                         (concat obs)) (concat q_values) = Ok loss) →
  mse_loss (ValueCritic_forward (critic_after c (concat obs) (concat q_values) j)
              (concat obs)) (concat q_values) = Raise e →
  ∃ w',
    update obs actions rewards terminals w = (Raise e, w') ∧
    actor (agent w') = a ∧
    critic (agent w') = Some (critic_after c (concat obs) (concat q_values) j) ∧
    calls w' = calls w ++ ActorUpdate (concat obs) (concat actions) advantages
                       :: replicate (S j) (CriticUpdate (concat obs) (concat q_values)).
Proof.
  intros Hc Hsteps Hj Hobs Hact Hrew Hter Hq Hadv Hupd Hbefore Hfail.
  rewrite (update_prefix _ _ _ _ _ q_values), Hadv, Hc, Hsteps by done.
  set (w1 := World (set_actor a (agent w))
               (calls w ++ [ActorUpdate (concat obs) (concat actions) advantages])).
  destruct (critic_loop_Raise (concat obs) (concat q_values) e j
              (range (Z.to_nat k))
              ({["actor_info" := ActorInfoV actor_info]}, ∅) w1 c)
    as (w' & Hrun & Hcalls & Hactor & Hcritic); try done.
  { by rewrite length_range. }
  exists w'. split.
  - unfold mbind at 1, Eff_bind at 1, actor_update. cbn. rewrite Hupd. cbn.
    unfold mbind at 1, Eff_bind at 1, lift. cbv beta iota.
    unfold mbind at 1, Eff_bind at 1. fold w1. by rewrite Hrun.
  - split; [done|]. split; [done|]. rewrite Hcalls. cbn. by rewrite <- app_assoc.
Qed.
End update_outcomes.

(** ** The training step: what it never changes *)

Section update_invariant.
Context {F : Type} {num : Number F} {npy : Numpy F} {collab : Collaborators F}.
Implicit Types (w : world) (self : PGAgent F).

Lemma evolves_refl w : evolves w w.
Proof. by repeat split. Qed.

Lemma evolves_trans w1 w2 w3 : evolves w1 w2 → evolves w2 w3 → evolves w1 w3.
Proof.
  intros [(H1 & H2 & H3 & H4 & H5 & H6) Hp] [(K1 & K2 & K3 & K4 & K5 & K6) Kp].
  split; [|by etrans].
  repeat split; try congruence; intros ?; [apply H6, K6|apply K6, H6]; done.
Qed.

Lemma preserves_ret {A} (a : A) : preserves (mret a : Eff A).
Proof. intros w r w' [= <- <-]. apply evolves_refl. Qed.

Lemma preserves_lift {A} (x : result A) : preserves (lift x).
Proof. intros w r w' [= <- <-]. apply evolves_refl. Qed.

Lemma preserves_get_self : preserves get_self.
Proof. intros w r w' [= <- <-]. apply evolves_refl. Qed.

Lemma preserves_bind {A B} (m : Eff A) (k : A → Eff B) :
  preserves m → (∀ a, preserves (k a)) → preserves (m ≫= k).
Proof.
  intros Hm Hk w r w'. unfold mbind, Eff_bind.
  destruct (m w) as [[a|e] w1] eqn:Hmw.
  - intros Hrun. eapply evolves_trans; [by eapply Hm|by eapply Hk].
  - intros [= <- <-]. by eapply Hm.
Qed.

Lemma preserves_actor_update obs actions advantages :
  preserves (actor_update obs actions advantages).
Proof.
  intros w r w'. unfold actor_update. cbn.
  destruct (MLPPolicyPG_update _ _ _ _) as [[a i]|e]; intros [= <- <-];
    (split; [by repeat split|by apply prefix_app_r]).
Qed.

Lemma preserves_critic_update obs q_values :
  preserves (critic_update obs q_values).
Proof.
  intros w r w'. unfold critic_update.
  destruct (critic (agent w)) as [c|] eqn:Hc.
  - cbn. destruct (ValueCritic_update c obs q_values) as [[c' i]|e];
      intros [= <- <-]; (split; [|by apply prefix_app_r]).
    + repeat split; try done; cbn; rewrite ?Hc; eauto.
    + by repeat split.
  - intros [= <- <-]. apply evolves_refl.
Qed.

Lemma preserves_for_eachE {S X} (body : S → X → Eff S) xs st :
  (∀ st x, preserves (body st x)) → preserves (for_eachE body xs st).
Proof.
  intros Hbody. revert st. induction xs as [|x xs IH]; intros st.
  - apply preserves_ret.
  - cbn [for_eachE]. apply preserves_bind; [apply Hbody|apply IH].
Qed.

(** X16: whatever its outcome, a call to [update] leaves the agent's
    configuration as it was (γ, the reward-to-go and normalize flags, GAE
    λ, the baseline step count and whether there is a baseline), and only
    adds to the log of collaborator calls. *)
Theorem update_keeps_configuration obs actions rewards terminals w r w' :
  update obs actions rewards terminals w = (r, w') → evolves w w'.
Proof.
  revert w r w'. change (preserves (update obs actions rewards terminals)).
  unfold update.
  apply preserves_bind; [apply preserves_get_self|intros self].
  do 7 (apply preserves_bind; [apply preserves_lift|intros ?]).
  apply preserves_bind; [apply preserves_actor_update|intros actor_info].
  destruct (critic self); [|apply preserves_ret].
  apply preserves_bind; [apply preserves_lift|intros steps].
  apply preserves_bind.
  - apply preserves_for_eachE. intros [info ci] x.
    apply preserves_bind; [apply preserves_critic_update|intros ?].
    apply preserves_ret.
  - intros [info ci]. apply preserves_ret.
Qed.
End update_invariant.

(** ** The critic's predictions, and λ without a baseline *)

Section critic_forward.
Context {F : Type} {num : Number F} {npy : Numpy F} {collab : Collaborators F}.
Implicit Types (c : CriticParams) (obs : list Obs).

(** X17: [ValueCritic.forward] returns one prediction per observation, in
    order; its shape is [(B,)] for a batch of [B ≠ 1] observations and the
    scalar shape [()] for a batch of one; squeezing it again changes
    nothing. *)
Theorem ValueCritic_forward_shape c obs :
  data (ValueCritic_forward c obs) = map (network c) obs ∧
  (length obs ≠ 1 → shape (ValueCritic_forward c obs) = [length obs]) ∧
  (length obs = 1 → shape (ValueCritic_forward c obs) = []) ∧
  squeeze (ValueCritic_forward c obs) = ValueCritic_forward c obs.
Proof.
  split; [done|].
  split; [intros Hne; by rewrite shape_ValueCritic_forward, decide_False|].
  split; [intros Hone; by rewrite shape_ValueCritic_forward, decide_True|].
  unfold ValueCritic_forward. apply squeeze_idemp.
Qed.

(** X18: an agent constructed with a GAE λ but without a baseline never
    uses the λ: its advantages are the Q-values, standardised when the
    normalize flag is on. *)
Theorem lambda_without_baseline_is_ignored ob_dim ac_dim discrete n_layers
    layer_size (γ lr : F) rtg blr steps (lam : F) normalize self
    obs rewards q_values terminals :
  PGAgent_init ob_dim ac_dim discrete n_layers layer_size γ lr
    false rtg blr steps (Some lam) normalize = Ok self →
  gae_lambda self = Some lam ∧
  _estimate_advantage self obs rewards q_values terminals
  = Ok (if normalize then standardize q_values else q_values).
Proof.
  unfold PGAgent_init.
  destruct (MLPPolicyPG_init _ _ _ _ _ _) as [a|e]; [|discriminate].
  cbn. intros [= <-]. split; [done|].
  by rewrite _estimate_advantage_no_baseline.
Qed.
End critic_forward.

(** ** The further properties at concrete inputs *)

Section concrete_estimator.
Local Open Scope R_scope.

Lemma baseline_advantages_witness :
  ∃ advantages,
    real_estimate (real_agent 1 true (Some 0%nat) (Some 1%Z) None false)
      [2; 3] [] [10; 20] [] = Ok advantages ∧
    length advantages = 2%nat ∧
    ∀ i q o, [10; 20] !! i = Some q → [2; 3] !! i = Some o →
             advantages !! i = Some (q - o).
Proof.
  assert (length [2; 3] ≠ 1%nat) as Hone by (simpl; lia).
  exact (baseline_advantages (collab := counting R)
           (real_agent 1 true (Some 0%nat) (Some 1%Z) None false) 0%nat
           [2; 3] [] [10; 20] [] eq_refl eq_refl eq_refl eq_refl Hone).
Defined.


Lemma gae_short_arrays_raise_witness :
  real_estimate (real_agent 1 true (Some 0%nat) (Some 1%Z) (Some (1 / 2)) false)
    [2; 3] [1; 1] [0; 0] [1] = Raise IndexError.
Proof.
  apply (gae_short_arrays_raise (collab := counting R)
           (real_agent 1 true (Some 0%nat) (Some 1%Z) (Some (1 / 2)) false)
           0%nat (1 / 2) [2; 3] [1; 1] [0; 0] [1]).
  - reflexivity.
  - reflexivity.
  - reflexivity.
  - simpl. lia.
  - right. simpl. lia.
Defined.

Lemma gae_lambda_zero_witness :
  real_estimate (real_agent (9 / 10) true (Some 0%nat) (Some 1%Z) (Some 0) false)
    [2; 3] [1; 1] [0; 0] [0; 1]
  = Ok (map (gae_delta (9 / 10) [1; 1] [2; 3] [0; 1]) (seq 0 2)).
Proof.
  assert (length [2; 3] ≠ 1%nat) as Hone by (simpl; lia).
  exact (gae_lambda_zero (collab := counting R)
           (real_agent (9 / 10) true (Some 0%nat) (Some 1%Z) (Some 0) false)
           0%nat [2; 3] [1; 1] [0; 0] [0; 1]
           eq_refl eq_refl eq_refl eq_refl eq_refl eq_refl Hone).
Defined.

Lemma gae_at_terminal_witness :
  ∃ advantages,
    real_estimate (real_agent (9 / 10) true (Some 0%nat) (Some 1%Z) (Some (1 / 2)) false)
      [2; 3; 4] [1; 7; 5] [0; 0; 0] [0; 1; 1] = Ok advantages ∧
    advantages !! 1%nat = Some (7 - 3).
Proof.
  assert (length [2; 3; 4] ≠ 1%nat) as Hone by (simpl; lia).
  exact (gae_at_terminal (collab := counting R)
           (real_agent (9 / 10) true (Some 0%nat) (Some 1%Z) (Some (1 / 2)) false)
           0%nat (1 / 2) [2; 3; 4] [1; 7; 5] [0; 0; 0] [0; 1; 1] 1%nat 7 3
           eq_refl eq_refl eq_refl eq_refl eq_refl eq_refl Hone
           eq_refl eq_refl eq_refl).
Defined.

Lemma gae_lambda_one_witness :
  real_estimate (real_agent (9 / 10) true (Some 0%nat) (Some 1%Z) (Some 1) false)
    [2; 3; 4] [1; 7; 5] [0; 0; 0] [0; 0; 1]
  = Ok (zip_with Rminus (reward_to_go_spec (9 / 10) [1; 7; 5]) [2; 3; 4]).
Proof.
  apply (gae_lambda_one (collab := counting R)
           (real_agent (9 / 10) true (Some 0%nat) (Some 1%Z) (Some 1) false)
           0%nat [2; 3; 4] [1; 7; 5] [0; 0; 0] [0; 0; 1]).
  - reflexivity.
  - reflexivity.
  - reflexivity.
  - reflexivity.
  - reflexivity.
  - simpl. lia.
  - intros [|[|i]] Hi; simpl in Hi; (reflexivity || lia).
  - intros [|[|[|i]]] Hi; simpl in Hi; (reflexivity || lia).
Defined.


Lemma standardisation_is_shift_invariant_witness :
  real_estimate (real_agent 1 true None None None true) [2; 3] [0; 0]
    (map (λ q, q + 100) [5; 6]) [0; 1]
  = real_estimate (real_agent 1 true None None None true) [2; 3] [0; 0]
      [5; 6] [0; 1].
Proof.
  apply (standardisation_is_shift_invariant (collab := counting R)
           (real_agent 1 true None None None true) [2; 3] [0; 0] [5; 6] [0; 1] 100).
  - reflexivity.
  - reflexivity.
Defined.

Lemma lambda_without_baseline_is_ignored_witness :
  gae_lambda (real_agent (99 / 100) true None None (Some (95 / 100)) false)
  = Some (95 / 100) ∧
  real_estimate (real_agent (99 / 100) true None None (Some (95 / 100)) false)
    [2; 3] [1; 1] [10; 20] [0; 1] = Ok [10; 20].
Proof.
  apply (lambda_without_baseline_is_ignored (collab := counting R)
           4 2 true 2 64 (99 / 100) (1 / 200) true None None (95 / 100) false
           (real_agent (99 / 100) true None None (Some (95 / 100)) false)
           [2; 3] [1; 1] [10; 20] [0; 1]).
  reflexivity.
Defined.
End concrete_estimator.

Section concrete_outcomes.
Local Open Scope R_scope.

Lemma update_on_empty_input_witness :
  real_update [[2; 3]] [] [[1; 1]] [[0; 1]]
    (fresh (real_agent 1 true None None None false))
  = (Raise ValueError, fresh (real_agent 1 true None None None false)).
Proof.
  apply (update_on_empty_input (collab := counting R)
           [[2; 3]] [] [[1; 1]] [[0; 1]]
           (fresh (real_agent 1 true None None None false))).
  right. left. reflexivity.
Defined.

(** The Policy of [stubborn] refuses its update. *)
Lemma update_policy_failure_witness :
  ∃ w',
    @update R R_number R_numpy (stubborn R) [[2; 3]] [[0; 1]%nat] [[1; 1]] [[0; 1]]
      (@World R (stubborn R)
         (@Build_PGAgent R (stubborn R) 0%nat (Some 0%nat) (Some 2%Z) 1 true None false) [])
    = (Raise ValueError, w') ∧
    critic (agent w') = Some 0%nat ∧
    calls w'
    = [@ActorUpdate R (stubborn R) [2; 3] [0; 1]%nat
         (zip_with Rminus (concat [reward_to_go_spec 1 [1; 1]]) [2; 3])].
Proof.
  refine (update_policy_failure (collab := stubborn R)
            [[2; 3]] [[0; 1]%nat] [[1; 1]] [[0; 1]]
            (@World R (stubborn R)
               (@Build_PGAgent R (stubborn R) 0%nat (Some 0%nat) (Some 2%Z) 1 true None false) [])
            [reward_to_go_spec 1 [1; 1]]
            (zip_with Rminus (concat [reward_to_go_spec 1 [1; 1]]) [2; 3])
            ValueError _ _ _ _ _ _ _).
  - discriminate.
  - discriminate.
  - discriminate.
  - discriminate.
  - reflexivity.
  - reflexivity.
  - reflexivity.
Defined.

(** The loss of [refusing] cannot be computed: the first baseline step
    fails, after the Policy's update. *)
Lemma update_baseline_failure_witness :
  ∃ w',
    @update R R_number R_numpy (refusing R) [[2; 3]] [[0; 1]%nat] [[1; 1]] [[0; 1]]
      (@World R (refusing R)
         (@Build_PGAgent R (refusing R) 0%nat (Some 0%nat) (Some 2%Z) 1 true None false) [])
    = (Raise ValueError, w') ∧
    actor (agent w') = 1%nat ∧
    critic (agent w') = Some 0%nat ∧
    length (calls w') = 2%nat.
Proof.
  destruct (update_baseline_failure (collab := refusing R)
              [[2; 3]] [[0; 1]%nat] [[1; 1]] [[0; 1]]
              (@World R (refusing R)
                 (@Build_PGAgent R (refusing R) 0%nat (Some 0%nat) (Some 2%Z) 1 true None false) [])
              0%nat 2%Z 0%nat
              [reward_to_go_spec 1 [1; 1]]
              (zip_with Rminus (concat [reward_to_go_spec 1 [1; 1]]) [2; 3])
              1%nat 0%nat ValueError)
    as (w' & Hrun & Hactor & Hcritic & Hcalls).
  - reflexivity.
  - reflexivity.
  - simpl. lia.
  - discriminate.
  - discriminate.
  - discriminate.
  - discriminate.
  - reflexivity.
  - reflexivity.
  - reflexivity.
  - intros i Hi. lia.
  - reflexivity.
  - exists w'. split; [exact Hrun|]. split; [exact Hactor|].
    split; [exact Hcritic|]. rewrite Hcalls. reflexivity.
Defined.

Lemma update_keeps_configuration_witness :
  evolves (fresh (real_agent 1 true None None None false))
    (@World R (counting R)
       (@set_actor R (counting R) 1%nat (real_agent 1 true None None None false))
       [@ActorUpdate R (counting R) [2; 3] [0; 1]%nat
          (concat [reward_to_go_spec 1 [1; 1]])]).
Proof.
  apply (update_keeps_configuration (collab := counting R)
           [[2; 3]] [[0; 1]%nat] [[1; 1]] [[0; 1]]
           (fresh (real_agent 1 true None None None false))
           (Ok {["actor_info" := @ActorInfoV R (counting R) 0%nat]})).
  reflexivity.
Defined.

Lemma update_without_step_count_witness :
  real_update [[2; 3]] [[0; 1]%nat] [[1; 1]] [[0; 1]]
    (fresh (real_agent 1 true (Some 0%nat) None None false))
  = (Raise TypeError,
     @World R (counting R)
       (@set_actor R (counting R) 1%nat
          (real_agent 1 true (Some 0%nat) None None false))
       [@ActorUpdate R (counting R) [2; 3] [0; 1]%nat
          (zip_with Rminus (concat [reward_to_go_spec 1 [1; 1]]) [2; 3])]).
Proof.
  refine (update_without_step_count (collab := counting R)
            [[2; 3]] [[0; 1]%nat] [[1; 1]] [[0; 1]]
            (fresh (real_agent 1 true (Some 0%nat) None None false))
            0%nat [reward_to_go_spec 1 [1; 1]]
            (zip_with Rminus (concat [reward_to_go_spec 1 [1; 1]]) [2; 3])
            1%nat 0%nat _ _ _ _ _ _ _ _ _).
  - reflexivity.
  - reflexivity.
  - discriminate.
  - discriminate.
  - discriminate.
  - discriminate.
  - reflexivity.
  - reflexivity.
  - reflexivity.
Defined.
End concrete_outcomes.

(** ** The training step on malformed and on well-formed batches *)

Section update_batches.
Context {F : Type} {num : Number F} {npy : Numpy F} {collab : Collaborators F}.
Implicit Types (w : world) (self : PGAgent F).

Lemma _calculate_q_vals_flat self (rewards : list (list F)) q_values :
  _calculate_q_vals self rewards = Ok q_values →
  length (concat q_values) = length (concat rewards).
Proof.
  unfold _calculate_q_vals. destruct (use_reward_to_go self); cbn [negb].
  - rewrite (mapM_Ok _ (reward_to_go_spec (gamma self)))
      by (intros; apply _discounted_reward_to_go_spec).
    intros [= <-]. apply length_concat_map, length_reward_to_go_spec.
  - rewrite (mapM_Ok _ (full_return_spec (gamma self)))
      by (intros; apply _discounted_return_spec).
    intros [= <-]. apply length_concat_map. intros. apply length_replicate.
Qed.

(** X20: with a baseline, a batch whose trajectories hold a different
    number of observations and rewards in total, or a batch of a single
    transition, is rejected by the shape assertion after flattening:
    [update] raises [AssertionError] and changes nothing. *)
Theorem update_rejects_misaligned_batch obs actions rewards terminals w c :
  critic (agent w) = Some c →
  obs ≠ [] → actions ≠ [] → rewards ≠ [] → terminals ≠ [] →
  length (concat obs) ≠ length (concat rewards) ∨ length (concat obs) = 1 →
  update obs actions rewards terminals w = (Raise AssertionError, w).
Proof.
  intros Hc Hobs Hact Hrew Hter Hbad.
  destruct (_calculate_q_vals_total (agent w) rewards) as (q_values & Hq & _).
  rewrite (update_prefix _ _ _ _ _ q_values) by done.
  rewrite (_estimate_advantage_mismatch _ c); [done|done|].
  rewrite shape_check, (_calculate_q_vals_flat _ _ _ Hq).
  intros [Hlen Hone]. by destruct Hbad.
Qed.

(** X21: in GAE mode, a batch with as many rewards as observations but
    fewer terminal markers makes [update] raise [IndexError] before any
    parameter is changed. *)
Theorem update_rejects_short_terminals obs actions rewards terminals w c lam :
  critic (agent w) = Some c → gae_lambda (agent w) = Some lam →
  obs ≠ [] → actions ≠ [] → rewards ≠ [] → terminals ≠ [] →
  length (concat obs) = length (concat rewards) → length (concat obs) ≠ 1 →
  length (concat terminals) < length (concat obs) →
  update obs actions rewards terminals w = (Raise IndexError, w).
Proof.
  intros Hc Hlam Hobs Hact Hrew Hter Hlen Hone Hshort.
  destruct (_calculate_q_vals_total (agent w) rewards) as (q_values & Hq & _).
  rewrite (update_prefix _ _ _ _ _ q_values) by done.
  assert (shape (squeeze (ValueCritic_forward c (concat obs)))
          = shape (as_array (concat q_values))) as Hshape.
  { apply shape_check. by rewrite (_calculate_q_vals_flat _ _ _ Hq). }
  unfold _estimate_advantage. rewrite Hc, decide_True, Hlam by done.
  rewrite data_ValueCritic_forward.
  destruct (length (concat obs)) as [|b] eqn:HB; [lia|].
  unfold range, range2. rewrite Nat.sub_0_r, seq_S, rev_unit.
  cbn [for_each].
  assert (∀ st, gae_body (agent w) lam (concat rewards)
                  (map (network c) (concat obs) ++ [0%num])
                  (concat terminals) st b = Raise IndexError) as Hstep.
  { intros [advantages next]. unfold gae_body.
    destruct (lookup_lt_is_Some_2 (concat rewards) b) as [r Hrb]; [lia|].
    rewrite (getitem_Some _ _ _ Hrb). cbn.
    destruct (lookup_lt_is_Some_2 (map (network c) (concat obs) ++ [0%num]) (b + 1))
      as [v Hv].
    { rewrite length_app, length_map, HB. cbn. lia. }
    rewrite (getitem_Some _ _ _ Hv). cbn.
    by rewrite (getitem_None (concat terminals)) by lia. }
  by rewrite Hstep.
Qed.

(** The baseline loop returns when every loss can be computed. *)
Lemma critic_loop_returns obs q_values (steps : list nat) :
  ∀ (st : gmap string info_value * gmap string F) w c,
  critic (agent w) = Some c →
  (∀ i, i < length steps →
     ∃ loss, mse_loss (ValueCritic_forward (critic_after c obs q_values i) obs)
               q_values = Ok loss) →
  ∃ r w',
    for_eachE (λ '(info, _) _,
        critic_info ← critic_update obs q_values;
        mret (<["critic_info" := CriticInfoV critic_info]> info, critic_info))
      steps st w = (Ok r, w').
Proof.
  induction steps as [|x steps IH]; intros [info ci] w c Hc Hloss.
  { by eexists _, _. }
  destruct (Hloss 0) as [loss Hl]; [cbn; lia|]. cbn in Hl.
  destruct (IH (<["critic_info" := CriticInfoV {["Baseline Loss" := loss]}]> info,
                {["Baseline Loss" := loss]})
              (World (set_critic (optimizer_step c obs q_values) (agent w))
                 (calls w ++ [CriticUpdate obs q_values]))
              (optimizer_step c obs q_values))
    as (r & w' & Hrun).
  - done.
  - intros i Hi. destruct (Hloss (S i)) as [l Hli]; [cbn; lia|].
    exists l. unfold critic_after in *. by rewrite Nat.iter_succ_r in Hli.
  - exists r, w'. cbn [for_eachE]. unfold mbind at 1, Eff_bind at 1.
    unfold mbind at 1, Eff_bind at 1, critic_update, ValueCritic_update.
    rewrite Hc. cbn. rewrite Hl. cbn. exact Hrun.
Qed.

(** X22: [update] returns whenever the input lists are non-empty, the
    advantage estimator returns, the Policy's update returns and, with a
    baseline, the step count is an integer and the loss of every baseline
    step can be computed. *)
Theorem update_returns obs actions rewards terminals w q_values advantages
    a actor_info :
  obs ≠ [] → actions ≠ [] → rewards ≠ [] → terminals ≠ [] →
  _calculate_q_vals (agent w) rewards = Ok q_values →
  _estimate_advantage (agent w) (concat obs) (concat rewards) (concat q_values)
    (concat terminals) = Ok advantages →
  MLPPolicyPG_update (actor (agent w)) (concat obs) (concat actions) advantages
  = Ok (a, actor_info) →
  (∀ c, critic (agent w) = Some c →
     ∃ k, baseline_gradient_steps (agent w) = Some k ∧
          ∀ i, i < Z.to_nat k →
            ∃ loss, mse_loss (ValueCritic_forward
                                (critic_after c (concat obs) (concat q_values) i)
                                (concat obs)) (concat q_values) = Ok loss) →
  ∃ info w', update obs actions rewards terminals w = (Ok info, w').
Proof.
  intros Hobs Hact Hrew Hter Hq Hadv Hupd Hbase.
  rewrite (update_prefix _ _ _ _ _ q_values), Hadv by done.
  unfold mbind at 1, Eff_bind at 1, actor_update. cbn. rewrite Hupd. cbn.
  destruct (critic (agent w)) as [c|] eqn:Hc; [|by eexists _, _].
  destruct (Hbase c eq_refl) as (k & Hk & Hloss). rewrite Hk.
  unfold mbind at 1, Eff_bind at 1, lift. cbv beta iota.
  destruct (critic_loop_returns (concat obs) (concat q_values)
              (range (Z.to_nat k))
              ({["actor_info" := ActorInfoV actor_info]}, ∅)
              (World (set_actor a (agent w))
                 (calls w ++ [ActorUpdate (concat obs) (concat actions) advantages]))
              c)
    as ([info ci] & w' & Hrun).
  - done.
  - intros i Hi. apply Hloss. by rewrite length_range in Hi.
  - unfold mbind at 1, Eff_bind at 1. cbn in Hrun |- *. rewrite Hrun.
    by eexists _, _.
Qed.
End update_batches.

Section concrete_batches.
Local Open Scope R_scope.

Lemma update_rejects_misaligned_batch_witness :
  real_update [[2; 3; 4]] [[0; 1; 0]%nat] [[1; 1]] [[0; 0; 1]]
    (fresh (real_agent 1 true (Some 0%nat) (Some 1%Z) None false))
  = (Raise AssertionError,
     fresh (real_agent 1 true (Some 0%nat) (Some 1%Z) None false)).
Proof.
  apply (update_rejects_misaligned_batch (collab := counting R)
           [[2; 3; 4]] [[0; 1; 0]%nat] [[1; 1]] [[0; 0; 1]]
           (fresh (real_agent 1 true (Some 0%nat) (Some 1%Z) None false)) 0%nat).
  - reflexivity.
  - discriminate.
  - discriminate.
  - discriminate.
  - discriminate.
  - left. simpl. lia.
Defined.

Lemma update_rejects_short_terminals_witness :
  real_update [[2; 3]] [[0; 1]%nat] [[1; 1]] [[1]]
    (fresh (real_agent 1 true (Some 0%nat) (Some 1%Z) (Some (1 / 2)) false))
  = (Raise IndexError,
     fresh (real_agent 1 true (Some 0%nat) (Some 1%Z) (Some (1 / 2)) false)).
Proof.
  apply (update_rejects_short_terminals (collab := counting R)
           [[2; 3]] [[0; 1]%nat] [[1; 1]] [[1]]
           (fresh (real_agent 1 true (Some 0%nat) (Some 1%Z) (Some (1 / 2)) false))
           0%nat (1 / 2)).
  - reflexivity.
  - reflexivity.
  - discriminate.
  - discriminate.
  - discriminate.
  - discriminate.
  - reflexivity.
  - simpl. lia.
  - simpl. lia.
Defined.

Lemma update_returns_witness :
  ∃ info w',
    real_update [[2; 3]] [[0; 1]%nat] [[1; 1]] [[0; 1]]
      (fresh (real_agent 1 true (Some 0%nat) (Some 2%Z) None false))
    = (Ok info, w').
Proof.
  refine (update_returns (collab := counting R)
            [[2; 3]] [[0; 1]%nat] [[1; 1]] [[0; 1]]
            (fresh (real_agent 1 true (Some 0%nat) (Some 2%Z) None false))
            [reward_to_go_spec 1 [1; 1]]
            (zip_with Rminus (concat [reward_to_go_spec 1 [1; 1]]) [2; 3])
            1%nat 0%nat _ _ _ _ _ _ _ _).
  - discriminate.
  - discriminate.
  - discriminate.
  - discriminate.
  - reflexivity.
  - reflexivity.
  - reflexivity.
  - intros c _. exists 2%Z. split; [reflexivity|].
    intros i _. exists 0. reflexivity.
Defined.
End concrete_batches.

